(** * neo4j-ts: the query-execution client of [src/index.ts]

    A shallow embedding of [createNeo4jClient] and of the interfaces of
    [src/types.ts], followed by the properties of session handling, batch
    orchestration and query templating.

    Layout:
    - [Js]      strings, plain keyed values, [String.prototype.includes],
                [Array.prototype.join];
    - [Async]   the sequential semantics of the [async] functions: a store
                threaded through every call, and completion by value or by
                a thrown value, with [try ... finally];
    - [Types]   [Neo4jResult], [Transaction], [Session], [Driver];
    - [Client]  [read], [write], [readSingle], [writeSingle], [createNode],
                [findNodes], [createRelationship], [batch];
    - [Spy]     a recording driver in the manner of the double used by
                [test/index.test.ts], whose answers are arbitrary;
    - [Utils]   [toNumber] of [src/utils.ts];
    - [Callers] sequences of calls on the client;
    - [Retry], [Rerun]  drivers whose sessions call the work again;
    - the theorems. *)

From Stdlib Require Import String Ascii List Arith Lia Bool.
Import ListNotations.
Local Open Scope list_scope.
Local Open Scope string_scope.

(* ===================================================================== *)
(** ** JavaScript values and strings *)
(* ===================================================================== *)

Module Js.

(** The values of [Record<string, any>] that the client handles.  An object
    is the list of its own enumerable entries, in the order in which
    [Object.keys] and [Object.entries] enumerate them. *)
#[warnings="-register-all"]
Inductive JsValue : Type :=
| JNull
| JBool (b : bool)
| JNum (n : nat)
| JStr (s : string)
| JObj (entries : list (string * JsValue)).

(** [Record<string, any>]. *)
Definition JsObject : Type := list (string * JsValue).

(** The object literal [{}]. *)
Definition empty_object : JsObject := [].

(** JavaScript's null is among the values that a variable of any type can
    hold at run time: a type of rows comes with its null. *)
Class HasNull (T : Type) : Type := null : T.

#[export] Instance JsValue_null : HasNull JsValue := JNull.

(** [Object.keys(o)]. *)
Definition keys (o : JsObject) : list string := map fst o.

(** [Object.entries(o)]. *)
Definition entries (o : JsObject) : list (string * JsValue) := o.

(** The line feed of a multi-line template literal. *)
Definition nl : string := String (ascii_of_nat 10) EmptyString.

(** [s.startsWith(t)]. *)
Fixpoint startsWith (s t : string) {struct t} : bool :=
  match t, s with
  | EmptyString, _ => true
  | String _ _, EmptyString => false
  | String b t', String a s' => Ascii.eqb a b && startsWith s' t'
  end.

(** [s.includes(t)]: [t] occurs in [s] at some position.  Strings are
    compared unit by unit, as JavaScript does; for a pattern of ASCII
    characters such as ["CREATE"] it makes no difference whether the units
    are UTF-16 code units or UTF-8 bytes. *)
Fixpoint includes (s t : string) : bool :=
  startsWith s t ||
  match s with
  | EmptyString => false
  | String _ s' => includes s' t
  end.

(** [xs.join(sep)] on an array of strings. *)
Fixpoint join (sep : string) (xs : list string) : string :=
  match xs with
  | [] => ""
  | [x] => x
  | x :: rest => x ++ sep ++ join sep rest
  end.

End Js.
Export Js.

(* ===================================================================== *)
(** ** Sequential semantics of the async functions *)
(* ===================================================================== *)

Module Async.

(** How a call completes: with a value, or by throwing (for an [async]
    function: by rejecting with) a value.  Any JavaScript value can be
    thrown. *)
Inductive Outcome (A : Type) : Type :=
| Ok (a : A)
| Throw (e : JsValue).
Arguments Ok {A} a.
Arguments Throw {A} e.

Section Monad.
Context {St : Type}.

(** A computation reads and updates the store, and completes. *)
Definition M (A : Type) : Type := St -> Outcome A * St.

Definition ret {A} (a : A) : M A := fun st => (Ok a, st).

Definition throw {A} (e : JsValue) : M A := fun st => (Throw e, st).

(** [const x = await c; k x]: a throw of [c] skips [k]; the store keeps
    what [c] did to it. *)
Definition bind {A B} (c : M A) (k : A -> M B) : M B :=
  fun st =>
    match c st with
    | (Ok a, st1) => k a st1
    | (Throw e, st1) => (Throw e, st1)
    end.

(** [try { body } finally { fin }], for a [fin] that has no [return]:
    [fin] runs however [body] completed; if [fin] throws, that throw is
    the completion of the whole statement, otherwise the completion of
    [body] is. *)
Definition try_finally {A} (body : M A) (fin : M unit) : M A :=
  fun st =>
    match body st with
    | (r, st1) =>
        match fin st1 with
        | (Ok _, st2) => (r, st2)
        | (Throw e, st2) => (Throw e, st2)
        end
    end.

(** [for (const x of xs) { body x }], left to right, left at the first
    throw. *)
Fixpoint for_of {A} (xs : list A) (body : A -> M unit) : M unit :=
  match xs with
  | [] => ret tt
  | x :: rest => bind (body x) (fun _ => for_of rest body)
  end.
End Monad.

Arguments M St A : clear implicits.

(** The completion of [f] applied to the value of a completed call. *)
Definition map_outcome {A B} (f : A -> B) (r : Outcome A) : Outcome B :=
  match r with
  | Ok a => Ok (f a)
  | Throw e => Throw e
  end.

(** The completion of [try { .. } finally { .. }] from the completions [r]
    of its block and [c] of its finalizer. *)
Definition after_finally {A} (r : Outcome A) (c : Outcome unit) : Outcome A :=
  match c with
  | Ok _ => r
  | Throw e => Throw e
  end.

Declare Scope async_scope.
Delimit Scope async_scope with async.
Notation "x <- c ;; k" := (bind c (fun x => k))
  (at level 61, c at next level, right associativity) : async_scope.
Notation "c ;; k" := (bind c (fun _ => k))
  (at level 61, right associativity) : async_scope.

End Async.
Export Async.
Local Open Scope async_scope.

(* ===================================================================== *)
(** ** The collaborator's interface ([src/types.ts]) *)
(* ===================================================================== *)

Module Types.
Section Types.
(** [T]: the type of a projected row; [World]: whatever state the driver
    behind the interface has. *)
Context {T World : Type}.

(** The store of one top-level call: the driver's state, and the array
    [results] that [batch] allocates and that its transaction callback
    and its body share. *)
Record Store : Type := mkStore {
  results : list (list T);
  world : World
}.

(** A row: [{ toObject(): T }]. *)
Record Neo4jRecord : Type := { toObject : unit -> T }.

(** [Neo4jResult<T>]. *)
Record Neo4jResult : Type := { records : list Neo4jRecord }.

(** [Transaction]: [run(cypher, params)]. *)
Record Transaction : Type := {
  run : string -> JsObject -> M Store Neo4jResult
}.

(** [Session]: [executeRead(callback)], [executeWrite(callback)],
    [close()]. *)
Record Session : Type := {
  executeRead : (Transaction -> M Store Neo4jResult) -> M Store Neo4jResult;
  executeWrite : (Transaction -> M Store Neo4jResult) -> M Store Neo4jResult;
  close : M Store unit
}.

(** [Driver]: [session()]. *)
Record Driver : Type := { session : M Store Session }.
End Types.

Arguments Store : clear implicits.
Arguments Neo4jRecord : clear implicits.
Arguments Neo4jResult : clear implicits.
Arguments Transaction : clear implicits.
Arguments Session : clear implicits.
Arguments Driver : clear implicits.

End Types.
Export Types.

(* ===================================================================== *)
(** ** The client ([src/index.ts]) *)
(* ===================================================================== *)

Module Client.

(** An element of the array given to [batch]:
    [{ query: string; params?: Record<string, any>; isWrite?: boolean }]. *)
Record Operation : Type := {
  query : string;
  params : option JsObject;
  isWrite : option bool
}.

(** A parameter with a default value: the default stands in for a missing
    (undefined) argument. *)
Definition or_default {A} (default : A) (arg : option A) : A :=
  match arg with
  | Some a => a
  | None => default
  end.

(** [res.records.map(record => record.toObject())]. *)
Definition project {T} (res : Neo4jResult T) : list T :=
  map (fun record => toObject record tt) (records res).

(** [results.length > 0 ? results[0] : null]: the first row as it is,
    which may itself be null. *)
Definition first_or_null {T} `{HasNull T} (results : list T) : T :=
  if (0 <? length results)%nat then nth 0 results null else null.

(** [operations.some(op => op.query.includes('CREATE'))]. *)
Definition needsWrite (operations : list Operation) : bool :=
  existsb (fun op => includes (query op) "CREATE") operations.

(** [op.params || {}]: an object, even an empty one, is truthy. *)
Definition params_or_empty (op : Operation) : JsObject :=
  match params op with
  | Some p => p
  | None => empty_object
  end.

(** The query text of [createNode]. *)
Definition createNode_cypher (label returnAlias : string) : string :=
  nl ++ "      CREATE (" ++ returnAlias ++ ":" ++ label ++ " $properties)" ++
  nl ++ "      RETURN " ++ returnAlias ++
  nl ++ "    ".

(** The query text of [findNodes] without a filter. *)
Definition findNodes_all_cypher (label returnAlias : string) : string :=
  "MATCH (" ++ returnAlias ++ ":" ++ label ++ ") RETURN " ++ returnAlias.

(** [Object.entries(properties).map(([key, _]) => ...).join(' AND ')]. *)
Definition whereConditions (properties : JsObject) (returnAlias : string)
  : string :=
  join " AND "
    (map (fun '(key, _) => returnAlias ++ "." ++ key ++ " = $" ++ key)
         (entries properties)).

(** The query text of [findNodes] with a filter. *)
Definition findNodes_where_cypher
    (label : string) (properties : JsObject) (returnAlias : string) : string :=
  nl ++ "      MATCH (" ++ returnAlias ++ ":" ++ label ++ ")" ++
  nl ++ "      WHERE " ++ whereConditions properties returnAlias ++
  nl ++ "      RETURN " ++ returnAlias ++
  nl ++ "    ".

(** The query text of [createRelationship]. *)
Definition createRelationship_cypher
    (startNodeMatch endNodeMatch relationshipType : string) : string :=
  nl ++ "      MATCH " ++ startNodeMatch ++
  nl ++ "      MATCH " ++ endNodeMatch ++
  nl ++ "      CREATE (a)-[r:" ++ relationshipType ++ " $properties]->(b)" ++
  nl ++ "      RETURN a, r, b" ++
  nl ++ "    ".

Section Client.
Context {T World : Type} {T_null : HasNull T}.
Local Abbreviation Store := (Store T World).
Local Abbreviation Neo4jResult := (Neo4jResult T).
Local Abbreviation Transaction := (Transaction T World).
Local Abbreviation Session := (Session T World).

(** [createNeo4jClient(driver)]: the functions below close over [driver]. *)
Variable driver : Driver T World.

(** [const results: T[][] = []]. *)
Definition new_results : M Store unit :=
  fun st => (Ok tt, mkStore [] (world st)).

(** [results.push(rows)]. *)
Definition push_results (rows : list T) : M Store unit :=
  fun st => (Ok tt, mkStore (results st ++ [rows])%list (world st)).

(** Reading the variable [results]. *)
Definition get_results : M Store (list (list T)) :=
  fun st => (Ok (results st), st).

Definition read (cypher : string) (params : option JsObject)
  : M Store (list T) :=
  let params := or_default empty_object params in
  s <- session driver ;;
  try_finally
    (res <- executeRead s (fun tx => run tx cypher params) ;;
     let values := project res in
     ret values)
    (close s).

Definition write (cypher : string) (params : option JsObject)
  : M Store (list T) :=
  let params := or_default empty_object params in
  s <- session driver ;;
  try_finally
    (res <- executeWrite s (fun tx => run tx cypher params) ;;
     let values := project res in
     ret values)
    (close s).

Definition readSingle (cypher : string) (params : option JsObject)
  : M Store T :=
  let params := or_default empty_object params in
  results <- read cypher (Some params) ;;
  ret (first_or_null results).

Definition writeSingle (cypher : string) (params : option JsObject)
  : M Store T :=
  let params := or_default empty_object params in
  results <- write cypher (Some params) ;;
  ret (first_or_null results).

Definition createNode
    (label : string) (properties : JsValue) (returnAlias : option string)
  : M Store T :=
  let returnAlias := or_default "n" returnAlias in
  let cypher := createNode_cypher label returnAlias in
  writeSingle cypher (Some [("properties", properties)]).

Definition findNodes
    (label : string) (properties : option JsObject)
    (returnAlias : option string)
  : M Store (list T) :=
  let returnAlias := or_default "n" returnAlias in
  match properties with
  | None => read (findNodes_all_cypher label returnAlias) None
  | Some props =>
      if (length (keys props) =? 0)%nat
      then read (findNodes_all_cypher label returnAlias) None
      else read (findNodes_where_cypher label props returnAlias)
                (Some props)
  end.

Definition createRelationship
    (startNodeMatch endNodeMatch relationshipType : string)
    (properties : option JsValue)
  : M Store T :=
  let properties := or_default (JObj empty_object) properties in
  let cypher :=
    createRelationship_cypher startNodeMatch endNodeMatch relationshipType in
  writeSingle cypher (Some [("properties", properties)]).

(** The body of the loop of [batch]. *)
Definition batch_step (tx : Transaction) (op : Operation) : M Store unit :=
  result <- run tx (query op) (params_or_empty op) ;;
  push_results (project result).

(** The callback that [batch] hands to [executeWrite] or [executeRead]
    (the same text in both branches). *)
Definition batch_work (operations : list Operation) (tx : Transaction)
  : M Store Neo4jResult :=
  for_of operations (batch_step tx) ;;
  ret {| records := [] |}.

Definition batch (operations : list Operation) : M Store (list (list T)) :=
  s <- session driver ;;
  new_results ;;
  try_finally
    ((if needsWrite operations
      then executeWrite s (batch_work operations)
      else executeRead s (batch_work operations)) ;;
     get_results)
    (close s).
End Client.

End Client.
Export Client.

(* ===================================================================== *)
(** ** A recording driver *)
(* ===================================================================== *)

Module Spy.

(** A call received by the collaborator. *)
Inductive Event : Type :=
| EvSession (sid : nat)        (* [driver.session()] returned session [sid] *)
| EvSessionFailed              (* [driver.session()] threw *)
| EvExecuteRead (sid : nat)
| EvExecuteWrite (sid : nat)
| EvRun (sid : nat) (cypher : string) (params : JsObject)
| EvClose (sid : nat).

(** The calls received so far, oldest first. *)
Definition Trace : Type := list Event.

Inductive Mode : Type := ReadMode | WriteMode.

(** The sessions handed out in a stretch of the trace. *)
Definition acquired (evs : Trace) : list nat :=
  flat_map (fun ev => match ev with EvSession sid => [sid] | _ => [] end) evs.

(** The sessions on which [close()] was called. *)
Definition closed (evs : Trace) : list nat :=
  flat_map (fun ev => match ev with EvClose sid => [sid] | _ => [] end) evs.

(** The transactions that were started, by mode. *)
Definition modes (evs : Trace) : list Mode :=
  flat_map (fun ev => match ev with
                      | EvExecuteRead _ => [ReadMode]
                      | EvExecuteWrite _ => [WriteMode]
                      | _ => []
                      end) evs.

(** The arguments of the calls to [run]. *)
Definition runs (evs : Trace) : list (string * JsObject) :=
  flat_map (fun ev => match ev with
                      | EvRun _ cypher params => [(cypher, params)]
                      | _ => []
                      end) evs.

(** The calls received after the first [length before] ones. *)
Definition since (before now : Trace) : Trace := skipn (length before) now.

(** What the collaborator answers.  Every answer may depend on all the
    calls received before, so that any deterministic driver is covered:
    [session()] returns or throws, [run] resolves to a result or rejects,
    [close()] resolves or rejects. *)
Record Answers (T : Type) : Type := {
  on_session : Trace -> option JsValue;
  on_run : Trace -> nat -> string -> JsObject -> JsValue + Neo4jResult T;
  on_close : Trace -> nat -> option JsValue
}.
Arguments on_session {T} _ _.
Arguments on_run {T} _ _ _ _ _.
Arguments on_close {T} _ _ _.

(** The call to [run] that [batch] makes for one operation. *)
Definition run_event (sid : nat) (op : Operation) : Event :=
  EvRun sid (query op) (params_or_empty op).

(** The call that starts a transaction of a given mode. *)
Definition execute_event (m : Mode) (sid : nat) : Event :=
  match m with
  | ReadMode => EvExecuteRead sid
  | WriteMode => EvExecuteWrite sid
  end.

Section Spy.
Context {T : Type}.
Variable answers : Answers T.
Local Abbreviation Store := (Store T Trace).

(** A call is appended to the trace and answered from what came before. *)
Definition record_call {A} (ev : Event) (answer : Trace -> Outcome A)
  : M Store A :=
  fun st =>
    (answer (world st), mkStore (results st) (world st ++ [ev])%list).

Definition run_answer (h : Trace) (sid : nat) (cypher : string)
    (params : JsObject) : Outcome (Neo4jResult T) :=
  match on_run answers h sid cypher params with
  | inl e => Throw e
  | inr res => Ok res
  end.

Definition close_answer (h : Trace) (sid : nat) : Outcome unit :=
  match on_close answers h sid with
  | Some e => Throw e
  | None => Ok tt
  end.

(** The answer to the [run] that [batch] makes for [op], the operation at
    index [i] of [ops], when the transaction started at trace [h]. *)
Definition answer_at (h : Trace) (sid : nat) (ops : list Operation)
    (i : nat) (op : Operation) : Outcome (Neo4jResult T) :=
  run_answer (h ++ map (run_event sid) (firstn i ops))%list sid
             (query op) (params_or_empty op).

Definition mockTransaction (sid : nat) : Transaction T Trace :=
  {| run := fun cypher params =>
       record_call (EvRun sid cypher params)
                   (fun h => run_answer h sid cypher params) |}.

(** [executeRead] and [executeWrite] call the callback once with the
    session's transaction and complete as the callback does, which is
    what [src/types.ts] lets the client rely on and what the double of
    [test/index.test.ts] does. *)
Definition mockSession (sid : nat) : Session T Trace :=
  {| executeRead := fun callback =>
       record_call (EvExecuteRead sid) (fun _ => Ok tt) ;;
       callback (mockTransaction sid);
     executeWrite := fun callback =>
       record_call (EvExecuteWrite sid) (fun _ => Ok tt) ;;
       callback (mockTransaction sid);
     close := record_call (EvClose sid) (fun h => close_answer h sid) |}.

(** The next session gets the number of sessions handed out so far. *)
Definition fresh_sid (h : Trace) : nat := length (acquired h).

Definition mockDriver : Driver T Trace :=
  {| session := fun st =>
       let h := world st in
       match on_session answers h with
       | Some e =>
           (Throw e, mkStore (results st) (h ++ [EvSessionFailed])%list)
       | None =>
           let sid := fresh_sid h in
           (Ok (mockSession sid),
            mkStore (results st) (h ++ [EvSession sid])%list)
       end |}.
End Spy.

End Spy.
Export Spy.

(* ===================================================================== *)
(** ** Concrete collaborators and inputs *)
(* ===================================================================== *)

Module Examples.

(** The row of [test/index.test.ts]. *)
Definition row : JsValue := JObj [("id", JStr "1"); ("name", JStr "Test Node")].

Definition mockResult : Neo4jResult JsValue :=
  {| records := [ {| toObject := fun _ => row |} ] |}.

(** Every call succeeds; every [run] resolves to [mockResult]. *)
Definition steady : Answers JsValue :=
  {| on_session := fun _ => None;
     on_run := fun _ _ _ _ => inr mockResult;
     on_close := fun _ _ => None |}.

(** No row is found. *)
Definition no_rows : Answers JsValue :=
  {| on_session := fun _ => None;
     on_run := fun _ _ _ _ => inr {| records := [] |};
     on_close := fun _ _ => None |}.

Definition engine_error : JsValue := JStr "Neo4jError: syntax error".
Definition close_error : JsValue := JStr "Neo4jError: session expired".

(** Every [run] rejects. *)
Definition run_rejects : Answers JsValue :=
  {| on_session := fun _ => None;
     on_run := fun _ _ _ _ => inl engine_error;
     on_close := fun _ _ => None |}.

(** Every [run] rejects, and so does [close()]. *)
Definition both_reject : Answers JsValue :=
  {| on_session := fun _ => None;
     on_run := fun _ _ _ _ => inl engine_error;
     on_close := fun _ _ => Some close_error |}.

(** The first [run] of a call resolves, every later one rejects. *)
Definition second_run_rejects : Answers JsValue :=
  {| on_session := fun _ => None;
     on_run := fun h _ _ _ =>
       match runs h with
       | [] => inr mockResult
       | _ :: _ => inl engine_error
       end;
     on_close := fun _ _ => None |}.

(** A fresh store: nothing called yet. *)
Definition st0 : Store JsValue Trace := mkStore [] [].

(** The batch of [test/index.test.ts]. *)
Definition two_matches : list Operation :=
  [ {| query := "MATCH (n:Label1) RETURN n"; params := None; isWrite := None |};
    {| query := "MATCH (n:Label2) RETURN n";
       params := Some [("param", JStr "value")];
       isWrite := None |} ].

(** A batch whose flags say write where no text contains CREATE, and one
    whose flags say read where a text does. *)
Definition flagged_write : list Operation :=
  [ {| query := "MATCH (n) SET n.seen = true"; params := None;
       isWrite := Some true |} ].

Definition flagged_read : list Operation :=
  [ {| query := "CREATE (n:Label1) RETURN n"; params := None;
       isWrite := Some false |} ].

End Examples.

(* ===================================================================== *)
(** ** The numeric helper ([src/utils.ts]) *)
(* ===================================================================== *)

Module Utils.

(** The argument of [toNumber]: [Integer | number | null | undefined].
    [Number] stands for JavaScript's numbers and [Integer] for the driver's
    integers; neither is looked into. *)
Inductive NumberArg (Number Integer : Type) : Type :=
| ArgNull
| ArgUndefined
| ArgNumber (n : Number)
| ArgInteger (i : Integer).
Arguments ArgNull {Number Integer}.
Arguments ArgUndefined {Number Integer}.
Arguments ArgNumber {Number Integer} n.
Arguments ArgInteger {Number Integer} i.

(** [toNumber(value)]; [Integer_toNumber] is the driver's
    [Integer.prototype.toNumber], and null is [None]. *)
Definition toNumber {Number Integer : Type}
    (Integer_toNumber : Integer -> Number)
    (value : NumberArg Number Integer) : option Number :=
  match value with
  | ArgNull | ArgUndefined => None
  | ArgNumber n => Some n
  | ArgInteger i => Some (Integer_toNumber i)
  end.

(** A result of [toNumber], of type [number | null], given as an argument
    again. *)
Definition as_argument {Number Integer : Type} (result : option Number)
  : NumberArg Number Integer :=
  match result with
  | Some n => ArgNumber n
  | None => ArgNull
  end.

End Utils.
Export Utils.

(* ===================================================================== *)
(** ** Callers *)
(* ===================================================================== *)

Module Callers.

(** One call on the object that [createNeo4jClient] returns. *)
Inductive Call : Type :=
| CallRead (cypher : string) (params : option JsObject)
| CallWrite (cypher : string) (params : option JsObject)
| CallReadSingle (cypher : string) (params : option JsObject)
| CallWriteSingle (cypher : string) (params : option JsObject)
| CallCreateNode (label : string) (properties : JsValue)
                 (returnAlias : option string)
| CallFindNodes (label : string) (properties : option JsObject)
                (returnAlias : option string)
| CallCreateRelationship (startNodeMatch endNodeMatch relationshipType : string)
                         (properties : option JsValue)
| CallBatch (operations : list Operation).

(** A call whose value is not looked at. *)
Definition forget {St A} (c : M St A) : M St unit :=
  fun st => (map_outcome (fun _ => tt) (fst (c st)), snd (c st)).

(** Making a call on the client of [driver]. *)
Definition perform {T World} `{HasNull T} (driver : Driver T World) (c : Call)
  : M (Store T World) unit :=
  match c with
  | CallRead cypher params => forget (read driver cypher params)
  | CallWrite cypher params => forget (write driver cypher params)
  | CallReadSingle cypher params => forget (readSingle driver cypher params)
  | CallWriteSingle cypher params => forget (writeSingle driver cypher params)
  | CallCreateNode label properties returnAlias =>
      forget (createNode driver label properties returnAlias)
  | CallFindNodes label properties returnAlias =>
      forget (findNodes driver label properties returnAlias)
  | CallCreateRelationship startNodeMatch endNodeMatch relationshipType
                           properties =>
      forget (createRelationship driver startNodeMatch endNodeMatch
                                 relationshipType properties)
  | CallBatch operations => forget (batch driver operations)
  end.

(** A caller that makes one call after the other, each awaited, and goes
    on whether a call returned or threw (as the tests of
    [test/index.test.ts] do on their shared driver). *)
Fixpoint perform_all {T World} `{HasNull T} (driver : Driver T World)
    (calls : list Call)
    (st : Store T World) : Store T World :=
  match calls with
  | [] => st
  | c :: rest => perform_all driver rest (snd (perform driver c st))
  end.

(** The number of calls to [driver.session()], granted or not. *)
Definition session_calls (evs : Trace) : nat :=
  length (flat_map (fun ev => match ev with
                              | EvSession _ | EvSessionFailed => [tt]
                              | _ => []
                              end) evs).

(** The query texts that the driver was asked to run. *)
Definition texts (evs : Trace) : list string := map fst (runs evs).

End Callers.
Export Callers.

(* ===================================================================== *)
(** ** A driver that runs the work again *)
(* ===================================================================== *)

Module Retry.
Section Retry.
Context {T : Type}.
Variable answers : Answers T.
Local Abbreviation Store := (Store T Trace).

(** The work is called; if it throws, it is called a second time, and the
    second completion is the one that counts. *)
Definition again {A} (work : M Store A) : M Store A :=
  fun st =>
    match work st with
    | (Ok a, st1) => (Ok a, st1)
    | (Throw _, st1) => work st1
    end.

(** A session whose [executeRead] and [executeWrite] call the callback
    again after it failed, which [src/types.ts] permits; [run] and [close]
    are those of [mockSession]. *)
Definition retryingSession (sid : nat) : Session T Trace :=
  {| executeRead := fun callback =>
       record_call (EvExecuteRead sid) (fun _ => Ok tt) ;;
       again (callback (mockTransaction answers sid));
     executeWrite := fun callback =>
       record_call (EvExecuteWrite sid) (fun _ => Ok tt) ;;
       again (callback (mockTransaction answers sid));
     close := record_call (EvClose sid) (fun h => close_answer answers h sid)
  |}.

Definition retryingDriver : Driver T Trace :=
  {| session := fun st =>
       let h := world st in
       match on_session answers h with
       | Some e =>
           (Throw e, mkStore (results st) (h ++ [EvSessionFailed])%list)
       | None =>
           let sid := fresh_sid h in
           (Ok (retryingSession sid),
            mkStore (results st) (h ++ [EvSession sid])%list)
       end |}.
End Retry.
End Retry.
Export Retry.

(* ===================================================================== *)
(** ** A driver that runs the work twice *)
(* ===================================================================== *)

Module Rerun.
Section Rerun.
Context {T : Type}.
Variable answers : Answers T.
Local Abbreviation Store := (Store T Trace).



End Rerun.
End Rerun.
Export Rerun.

Module MoreExamples.

(** Every [run] resolves to one row, and the row is null. *)
Definition null_row : Answers JsValue :=
  {| on_session := fun _ => None;
     on_run := fun _ _ _ _ =>
       inr {| records := [ {| toObject := fun _ => JNull |} ] |};
     on_close := fun _ _ => None |}.

(** The second [run] of a call rejects, every other one resolves. *)
Definition second_run_rejects_once : Answers JsValue :=
  {| on_session := fun _ => None;
     on_run := fun h _ _ _ =>
       match runs h with
       | [_] => inl Examples.engine_error
       | _ => inr Examples.mockResult
       end;
     on_close := fun _ _ => None |}.

(** No session is to be had. *)
Definition no_session : Answers JsValue :=
  {| on_session := fun _ => Some Examples.engine_error;
     on_run := fun _ _ _ _ => inr Examples.mockResult;
     on_close := fun _ _ => None |}.

(** A result of three rows. *)
Definition three_rows : Neo4jResult JsValue :=
  {| records := [ {| toObject := fun _ => JNum 1 |};
                  {| toObject := fun _ => JNum 2 |};
                  {| toObject := fun _ => JNum 3 |} ] |}.

Definition steady_three : Answers JsValue :=
  {| on_session := fun _ => None;
     on_run := fun _ _ _ _ => inr three_rows;
     on_close := fun _ _ => None |}.

(** A caller's afternoon. *)
Definition script : list Call :=
  [ CallFindNodes "User" (Some [("active", JBool true)]) None;
    CallCreateNode "User" (JObj [("name", JStr "John")]) None;
    CallRead "MATCH (n:User) RETURN n.name, n.email" None;
    CallBatch Examples.two_matches ].

End MoreExamples.

(* ===================================================================== *)
(** ** Strings *)
(* ===================================================================== *)

Section StringFacts.

Lemma append_assoc (a b c : string) : (a ++ b) ++ c = a ++ (b ++ c).
Proof.
  induction a as [|ch a IH]; simpl; [reflexivity | now rewrite IH].
Qed.

Lemma startsWith_append (t b : string) : startsWith (t ++ b) t = true.
Proof.
  induction t as [|ch t IH]; simpl.
  - reflexivity.
  - now rewrite Ascii.eqb_refl, IH.
Qed.

Lemma startsWith_inv (s t : string) :
  startsWith s t = true -> exists b, s = t ++ b.
Proof.
  revert s; induction t as [|ch t IH]; intros s H.
  - exists s; reflexivity.
  - destruct s as [|a s]; simpl in H; [discriminate|].
    apply andb_true_iff in H as [Hc Hs].
    apply Ascii.eqb_eq in Hc; subst a.
    destruct (IH _ Hs) as [b ->].
    exists b; reflexivity.
Qed.

Lemma includes_here (s t : string) :
  startsWith s t = true -> includes s t = true.
Proof.
  intros H; destruct s; simpl; rewrite H; reflexivity.
Qed.

(** [includes] finds an occurrence wherever there is one. *)
Lemma includes_intro (a t b : string) : includes (a ++ t ++ b) t = true.
Proof.
  induction a as [|ch a IH]; simpl.
  - apply includes_here, startsWith_append.
  - rewrite IH; apply orb_true_r.
Qed.

(** ... and nowhere else. *)
Lemma includes_inv (s t : string) :
  includes s t = true -> exists a b, s = a ++ t ++ b.
Proof.
  induction s as [|ch s IH]; simpl; intros H.
  - rewrite orb_false_r in H.
    destruct (startsWith_inv _ _ H) as [b Hb].
    exists "", b; exact Hb.
  - apply orb_true_iff in H as [H|H].
    + destruct (startsWith_inv _ _ H) as [b Hb].
      exists "", b; exact Hb.
    + destruct (IH H) as (a & b & ->).
      exists (String ch a), b; reflexivity.
Qed.

Lemma includes_iff (s t : string) :
  includes s t = true <-> exists a b, s = a ++ t ++ b.
Proof.
  split.
  - apply includes_inv.
  - intros (a & b & ->); apply includes_intro.
Qed.

End StringFacts.

(* ===================================================================== *)
(** ** The client against the recording driver *)
(* ===================================================================== *)

Section Traces.

Lemma since_app (h evs : Trace) : since h (h ++ evs)%list = evs.
Proof.
  unfold since. induction h as [|ev h IH]; simpl; [reflexivity | exact IH].
Qed.

Lemma runs_app (a b : Trace) : runs (a ++ b)%list = (runs a ++ runs b)%list.
Proof. apply flat_map_app. Qed.

Lemma modes_app (a b : Trace) :
  modes (a ++ b)%list = (modes a ++ modes b)%list.
Proof. apply flat_map_app. Qed.

Lemma acquired_app (a b : Trace) :
  acquired (a ++ b)%list = (acquired a ++ acquired b)%list.
Proof. apply flat_map_app. Qed.

Lemma closed_app (a b : Trace) :
  closed (a ++ b)%list = (closed a ++ closed b)%list.
Proof. apply flat_map_app. Qed.

Lemma runs_run_events (sid : nat) (ops : list Operation) :
  runs (map (run_event sid) ops) =
  map (fun op => (query op, params_or_empty op)) ops.
Proof.
  induction ops as [|op ops IH]; simpl; [reflexivity | now rewrite IH].
Qed.

Lemma modes_run_events (sid : nat) (ops : list Operation) :
  modes (map (run_event sid) ops) = [].
Proof. induction ops as [|op ops IH]; simpl; [reflexivity | exact IH]. Qed.

Lemma acquired_run_events (sid : nat) (ops : list Operation) :
  acquired (map (run_event sid) ops) = [].
Proof. induction ops as [|op ops IH]; simpl; [reflexivity | exact IH]. Qed.

Lemma closed_run_events (sid : nat) (ops : list Operation) :
  closed (map (run_event sid) ops) = [].
Proof. induction ops as [|op ops IH]; simpl; [reflexivity | exact IH]. Qed.

End Traces.

Section Mock.
Context {T : Type}.
Variable answers : Answers T.
Local Abbreviation Store := (Store T Trace).
Local Open Scope list_scope.

(** Unfolds a client call down to the collaborator's answers. *)
Ltac run_client :=
  cbv [read write batch bind try_finally ret mockDriver mockSession
       mockTransaction record_call session executeRead executeWrite close
       run new_results get_results or_default];
  cbn [world results].

(** [read] against the recording driver, session granted: the four calls
    it makes, and how it completes. *)
Lemma read_mock (cypher : string) (params : option JsObject) (st : Store) :
  on_session answers (world st) = None ->
  let h := world st in
  let sid := fresh_sid h in
  let p := or_default empty_object params in
  read (mockDriver answers) cypher params st =
  (after_finally
     (map_outcome project
        (run_answer answers (h ++ [EvSession sid; EvExecuteRead sid])
                    sid cypher p))
     (close_answer answers
        (h ++ [EvSession sid; EvExecuteRead sid; EvRun sid cypher p]) sid),
   mkStore (results st)
     (h ++ [EvSession sid; EvExecuteRead sid; EvRun sid cypher p;
            EvClose sid])).
Proof.
  intros Hs. cbv zeta. run_client. rewrite Hs.
  cbn [world results]. rewrite <- !app_assoc. cbn [app].
  destruct params as [q|];
    destruct (run_answer answers _ _ cypher _);
    cbn [world results map_outcome]; rewrite <- ?app_assoc; cbn [app];
    destruct (close_answer answers _ _) as [[]|]; reflexivity.
Qed.

Lemma write_mock (cypher : string) (params : option JsObject) (st : Store) :
  on_session answers (world st) = None ->
  let h := world st in
  let sid := fresh_sid h in
  let p := or_default empty_object params in
  write (mockDriver answers) cypher params st =
  (after_finally
     (map_outcome project
        (run_answer answers (h ++ [EvSession sid; EvExecuteWrite sid])
                    sid cypher p))
     (close_answer answers
        (h ++ [EvSession sid; EvExecuteWrite sid; EvRun sid cypher p]) sid),
   mkStore (results st)
     (h ++ [EvSession sid; EvExecuteWrite sid; EvRun sid cypher p;
            EvClose sid])).
Proof.
  intros Hs. cbv zeta. run_client. rewrite Hs.
  cbn [world results]. rewrite <- !app_assoc. cbn [app].
  destruct params as [q|];
    destruct (run_answer answers _ _ cypher _);
    cbn [world results map_outcome]; rewrite <- ?app_assoc; cbn [app];
    destruct (close_answer answers _ _) as [[]|]; reflexivity.
Qed.

(** Without a session nothing else is called. *)
Lemma read_no_session (cypher : string) (params : option JsObject)
    (st : Store) (e : JsValue) :
  on_session answers (world st) = Some e ->
  read (mockDriver answers) cypher params st =
  (Throw e, mkStore (results st) (world st ++ [EvSessionFailed])).
Proof. intros Hs. run_client. rewrite Hs. reflexivity. Qed.

(** *** The loop of [batch] *)

Lemma body_step (sid : nat) (op : Operation) (st : Store) :
  batch_step (mockTransaction answers sid) op st =
  match run_answer answers (world st) sid (query op) (params_or_empty op)
  with
  | Ok res =>
      (Ok tt, mkStore (results st ++ [project res])
                      (world st ++ [run_event sid op]))
  | Throw e =>
      (Throw e, mkStore (results st) (world st ++ [run_event sid op]))
  end.
Proof.
  unfold batch_step, bind, mockTransaction, record_call, run, push_results.
  cbn [world results].
  destruct (run_answer answers _ _ _ _); reflexivity.
Qed.

(** When every [run] resolves, the loop makes one call per operation, in
    order, and appends one list of rows per operation, in order. *)
Lemma loop_ok (sid : nat) (ops : list Operation) : forall st : Store,
  (forall i op, nth_error ops i = Some op ->
     exists res, answer_at answers (world st) sid ops i op = Ok res) ->
  exists outs,
    for_of ops (batch_step (mockTransaction answers sid)) st =
      (Ok tt, mkStore (results st ++ outs)
                      (world st ++ map (run_event sid) ops)) /\
    length outs = length ops /\
    forall i op, nth_error ops i = Some op ->
      exists res, answer_at answers (world st) sid ops i op = Ok res /\
                  nth_error outs i = Some (project res).
Proof.
  induction ops as [|op ops IH]; intros st Hall.
  - exists []. cbn. rewrite !app_nil_r. destruct st; repeat split.
    intros [|i] op' H; discriminate.
  - destruct (Hall 0 op eq_refl) as [res0 H0].
    unfold answer_at in H0; cbn in H0; rewrite app_nil_r in H0.
    set (st1 := mkStore (results st ++ [project res0])
                        (world st ++ [run_event sid op])).
    destruct (IH st1) as (outs & Hrun & Hlen & Hnth).
    { intros i op' Hi. destruct (Hall (S i) op' Hi) as [res Hres].
      exists res. unfold answer_at in *. cbn in *.
      rewrite <- app_assoc. exact Hres. }
    exists (project res0 :: outs). split; [|split].
    + cbn [for_of]. unfold bind at 1. rewrite body_step, H0.
      fold st1. rewrite Hrun. cbn [world results st1].
      rewrite <- !app_assoc. reflexivity.
    + cbn. now rewrite Hlen.
    + intros [|i] op' Hi.
      * cbn in Hi. injection Hi as <-. exists res0. split; [|reflexivity].
        unfold answer_at; cbn; rewrite app_nil_r; exact H0.
      * destruct (Hnth i op' Hi) as (res & Hres & Hout).
        exists res. split; [|exact Hout].
        unfold answer_at in *. cbn in *.
        rewrite <- app_assoc in Hres. exact Hres.
Qed.

(** When the [run] of operation [k] is the first to reject, the loop
    stops there: the calls for operations [0..k] were made, and no
    later one. *)
Lemma loop_fail (sid : nat) (e : JsValue) :
  forall (k : nat) (ops : list Operation) (st : Store) (op : Operation),
  nth_error ops k = Some op ->
  (forall i op', i < k -> nth_error ops i = Some op' ->
     exists res, answer_at answers (world st) sid ops i op' = Ok res) ->
  answer_at answers (world st) sid ops k op = Throw e ->
  exists outs,
    for_of ops (batch_step (mockTransaction answers sid)) st =
      (Throw e, mkStore (results st ++ outs)
                  (world st ++ map (run_event sid) (firstn (S k) ops))) /\
    length outs = k.
Proof.
  induction k as [|k IH]; intros ops st op Hk Hbefore Hfail;
    destruct ops as [|op0 ops]; try discriminate.
  - cbn in Hk. injection Hk as <-.
    unfold answer_at in Hfail; cbn in Hfail; rewrite app_nil_r in Hfail.
    exists []. split; [|reflexivity].
    cbn [for_of]. unfold bind at 1. rewrite body_step, Hfail.
    rewrite app_nil_r. reflexivity.
  - destruct (Hbefore 0 op0 (Nat.lt_0_succ k) eq_refl) as [res0 H0].
    unfold answer_at in H0; cbn in H0; rewrite app_nil_r in H0.
    set (st1 := mkStore (results st ++ [project res0])
                        (world st ++ [run_event sid op0])).
    destruct (IH ops st1 op Hk) as (outs & Hrun & Hlen).
    { intros i op' Hi Hnth.
      destruct (Hbefore (S i) op' (proj1 (Nat.succ_lt_mono i k) Hi) Hnth)
        as [res Hres].
      exists res. unfold answer_at in *. cbn in *.
      rewrite <- app_assoc. exact Hres. }
    { unfold answer_at in *. cbn in *.
      rewrite <- app_assoc. exact Hfail. }
    exists (project res0 :: outs). split.
    + cbn [for_of]. unfold bind at 1. rewrite body_step, H0.
      fold st1. rewrite Hrun. cbn [world results st1].
      rewrite <- !app_assoc. reflexivity.
    + cbn. now rewrite Hlen.
Qed.

(** *** [batch] against the recording driver *)

(** [batch], session granted, up to the loop: the loop starts from an empty
    [results] in a transaction of the mode that [needsWrite] selects, and
    [close()] follows however the loop completed. *)
Lemma batch_mock (ops : list Operation) (st : Store) :
  on_session answers (world st) = None ->
  let h := world st in
  let sid := fresh_sid h in
  let m := if needsWrite ops then WriteMode else ReadMode in
  let loop :=
    for_of ops (batch_step (mockTransaction answers sid))
      (mkStore [] (h ++ [EvSession sid; execute_event m sid])) in
  batch (mockDriver answers) ops st =
  (after_finally
     (map_outcome (fun _ => results (snd loop)) (fst loop))
     (close_answer answers (world (snd loop)) sid),
   mkStore (results (snd loop)) (world (snd loop) ++ [EvClose sid])).
Proof.
  intros Hs. cbv zeta. run_client. rewrite Hs. cbn [world results].
  unfold batch_work, bind, ret.
  destruct (needsWrite ops); cbn [execute_event world results];
    rewrite <- !app_assoc; cbn [app];
    destruct (for_of ops _ _) as [[[]|e] st1]; cbn [fst snd map_outcome];
    destruct (close_answer answers _ _) as [[]|]; reflexivity.
Qed.

(** The calls of the loop are the [run]s of a prefix of the operations. *)
Lemma loop_trace (sid : nat) (ops : list Operation) : forall st : Store,
  exists j,
    world (snd (for_of ops (batch_step (mockTransaction answers sid)) st)) =
    world st ++ map (run_event sid) (firstn j ops).
Proof.
  induction ops as [|op ops IH]; intros st.
  - exists 0. cbn. now rewrite app_nil_r.
  - cbn [for_of]. unfold bind at 1. rewrite body_step.
    destruct (run_answer answers _ _ _ _) as [res|e].
    + destruct (IH (mkStore (results st ++ [project res])
                            (world st ++ [run_event sid op]))) as [j Hj].
      exists (S j). rewrite Hj. cbn [world firstn map].
      now rewrite <- app_assoc.
    + exists 1. reflexivity.
Qed.

(* ===================================================================== *)
(** ** Session lifecycle *)
(* ===================================================================== *)

(** C1.  In every call to [read] or [write] that is given a session,
    whatever the work inside the session does (the answers of [run] and of
    [close()] are arbitrary, so the work may succeed or throw), the client
    acquires exactly one session, calls [close()] exactly once, on that
    session and on no other, and that call is the last thing it does before
    the call completes: the session is not leaked on any path. *)
Theorem session_closed_exactly_once
    (cypher : string) (params : option JsObject) (st : Store) :
  on_session answers (world st) = None ->
  let sid := fresh_sid (world st) in
  let during_read :=
    since (world st)
          (world (snd (read (mockDriver answers) cypher params st))) in
  let during_write :=
    since (world st)
          (world (snd (write (mockDriver answers) cypher params st))) in
  (acquired during_read = [sid] /\ closed during_read = [sid] /\
   hd_error during_read = Some (EvSession sid) /\
   last during_read (EvSession sid) = EvClose sid) /\
  (acquired during_write = [sid] /\ closed during_write = [sid] /\
   hd_error during_write = Some (EvSession sid) /\
   last during_write (EvSession sid) = EvClose sid).
Proof.
  intros Hs. cbv zeta.
  rewrite (read_mock _ _ _ Hs), (write_mock _ _ _ Hs).
  cbn [snd world]. rewrite !since_app. cbn. repeat split.
Qed.

(* ===================================================================== *)
(** ** Batch *)
(* ===================================================================== *)

(** The calls of a [batch] that is given a session: the session, one
    transaction of the selected mode, the [run]s of a prefix of the
    operations, [close()]. *)
Lemma batch_trace (ops : list Operation) (st : Store) :
  on_session answers (world st) = None ->
  let sid := fresh_sid (world st) in
  let m := if needsWrite ops then WriteMode else ReadMode in
  exists j,
    world (snd (batch (mockDriver answers) ops st)) =
    world st ++ [EvSession sid; execute_event m sid] ++
    map (run_event sid) (firstn j ops) ++ [EvClose sid].
Proof.
  intros Hs. cbv zeta. rewrite (batch_mock _ _ Hs). cbn [snd world].
  destruct (loop_trace (fresh_sid (world st)) ops
              (mkStore []
                 (world st ++
                  [EvSession (fresh_sid (world st));
                   execute_event
                     (if needsWrite ops then WriteMode else ReadMode)
                     (fresh_sid (world st))]))) as [j Hj].
  exists j. rewrite Hj. cbn [world]. rewrite <- !app_assoc. reflexivity.
Qed.

Lemma needsWrite_texts (ops : list Operation) :
  needsWrite ops =
  existsb (fun text => includes text "CREATE") (map query ops).
Proof.
  unfold needsWrite.
  induction ops as [|op ops IH]; cbn; [reflexivity | now rewrite IH].
Qed.

(** C2.  A [batch] that is given a session starts exactly one transaction;
    it is a write transaction ([executeWrite]) if and only if some
    operation's query text contains ["CREATE"], and a read transaction
    ([executeRead]) otherwise.  The mode depends on the query texts alone:
    batches with the same texts, whatever their [params] and [isWrite]
    flags, run in the same mode. *)
Theorem batch_mode_from_query_texts (ops : list Operation) (st : Store) :
  on_session answers (world st) = None ->
  let mode_of (operations : list Operation) :=
    modes (since (world st)
             (world (snd (batch (mockDriver answers) operations st)))) in
  (mode_of ops = [WriteMode] \/ mode_of ops = [ReadMode]) /\
  (mode_of ops = [WriteMode] <->
   exists op, In op ops /\ exists a b, query op = (a ++ "CREATE" ++ b)%string) /\
  (forall ops', map query ops' = map query ops -> mode_of ops' = mode_of ops).
Proof.
  intros Hs. cbv beta zeta.
  assert (Hmode : forall operations,
    modes (since (world st)
             (world (snd (batch (mockDriver answers) operations st)))) =
    [if needsWrite operations then WriteMode else ReadMode]).
  { intros operations. destruct (batch_trace operations st Hs) as [j ->].
    rewrite since_app, !modes_app, modes_run_events.
    destruct (needsWrite operations); reflexivity. }
  rewrite Hmode. split; [|split].
  - destruct (needsWrite ops); [left | right]; reflexivity.
  - split.
    + intros H. destruct (needsWrite ops) eqn:E; [|discriminate].
      unfold needsWrite in E. apply existsb_exists in E as (op & Hin & Hop).
      exists op. split; [exact Hin | now apply includes_inv].
    + intros (op & Hin & a & b & Hq).
      assert (E : needsWrite ops = true).
      { unfold needsWrite. apply existsb_exists. exists op.
        split; [exact Hin | rewrite Hq; apply includes_intro]. }
      now rewrite E.
  - intros ops' Htexts. rewrite Hmode.
    now rewrite (needsWrite_texts ops'), Htexts, <- needsWrite_texts.
Qed.

(** [batch], session granted, when every [run] resolves. *)
Lemma batch_all_resolve (ops : list Operation) (st : Store) :
  on_session answers (world st) = None ->
  let h := world st in
  let sid := fresh_sid h in
  let m := if needsWrite ops then WriteMode else ReadMode in
  let h1 := h ++ [EvSession sid; execute_event m sid] in
  (forall i op, nth_error ops i = Some op ->
     exists res, answer_at answers h1 sid ops i op = Ok res) ->
  exists outs : list (list T),
    batch (mockDriver answers) ops st =
      (after_finally (Ok outs)
         (close_answer answers (h1 ++ map (run_event sid) ops) sid),
       mkStore outs (h1 ++ map (run_event sid) ops ++ [EvClose sid])) /\
    length outs = length ops /\
    (forall i op, nth_error ops i = Some op ->
       exists res, answer_at answers h1 sid ops i op = Ok res /\
                   nth_error outs i = Some (project res)).
Proof.
  intros Hs h sid m h1 Hall.
  destruct (loop_ok sid ops (mkStore [] h1) Hall)
    as (outs & Hloop & Hlen & Hnth).
  cbn [world results app] in Hloop.
  exists outs. split; [|split; assumption].
  rewrite (batch_mock _ _ Hs). cbv zeta.
  fold h sid m h1. rewrite Hloop. cbn [fst snd world results map_outcome].
  now rewrite <- app_assoc.
Qed.


(** C10.  [batch([])], given a session: one session, one read transaction,
    no [run], one [close()] on the session, in this order; the call returns
    the empty list (unless [close()] rejects). *)
Theorem batch_of_nothing (st : Store) :
  on_session answers (world st) = None ->
  let h := world st in
  let sid := fresh_sid h in
  let call := batch (mockDriver answers) [] st in
  let during := since h (world (snd call)) in
  during = [EvSession sid; EvExecuteRead sid; EvClose sid] /\
  acquired during = [sid] /\
  closed during = [sid] /\
  modes during = [ReadMode] /\
  runs during = [] /\
  (on_close answers (h ++ [EvSession sid; EvExecuteRead sid]) sid = None ->
   fst call = Ok []).
Proof.
  intros Hs h sid call during.
  assert (Hcall : call =
    (after_finally (Ok [])
       (close_answer answers (h ++ [EvSession sid; EvExecuteRead sid]) sid),
     mkStore [] (h ++ [EvSession sid; EvExecuteRead sid; EvClose sid]))).
  { unfold call. rewrite (batch_mock _ _ Hs). cbn.
    fold h sid. now rewrite <- app_assoc. }
  unfold during. rewrite Hcall. cbn [fst snd world]. rewrite since_app.
  repeat split.
  intros Hc. unfold close_answer. rewrite Hc. reflexivity.
Qed.

(* ===================================================================== *)
(** ** Failures *)
(* ===================================================================== *)

(** C8, amended.  When the work of a [read], [write] or [batch] call fails
    (its [run] rejects with [e]; for [batch], the [run] of operation [k] is
    the first to reject), then, whatever [close()] answers, [run] was not
    called again and [close()] was called once, after the failure and
    before the call completed; [batch] runs no operation after the failing
    one and then closes, and when none fails it closes after the last one.
    If [close()] resolves, the call rejects with that very [e]; if
    [close()] rejects, the call rejects with the error of [close()]. *)
Theorem execution_failure_propagates
    (cypher : string) (params : option JsObject) (ops : list Operation)
    (st : Store) (e : JsValue) :
  on_session answers (world st) = None ->
  let h := world st in
  let sid := fresh_sid h in
  let p := or_default empty_object params in
  (on_run answers (h ++ [EvSession sid; EvExecuteRead sid]) sid cypher p
     = inl e ->
   let call := read (mockDriver answers) cypher params st in
   let closing :=
     on_close answers
       (h ++ [EvSession sid; EvExecuteRead sid; EvRun sid cypher p]) sid in
   since h (world (snd call)) =
     [EvSession sid; EvExecuteRead sid; EvRun sid cypher p; EvClose sid] /\
   (closing = None -> fst call = Throw e) /\
   (forall e', closing = Some e' -> fst call = Throw e')) /\
  (on_run answers (h ++ [EvSession sid; EvExecuteWrite sid]) sid cypher p
     = inl e ->
   let call := write (mockDriver answers) cypher params st in
   let closing :=
     on_close answers
       (h ++ [EvSession sid; EvExecuteWrite sid; EvRun sid cypher p]) sid in
   since h (world (snd call)) =
     [EvSession sid; EvExecuteWrite sid; EvRun sid cypher p; EvClose sid] /\
   (closing = None -> fst call = Throw e) /\
   (forall e', closing = Some e' -> fst call = Throw e')) /\
  (let m := if needsWrite ops then WriteMode else ReadMode in
   let h1 := h ++ [EvSession sid; execute_event m sid] in
   let call := batch (mockDriver answers) ops st in
   (forall k op,
      nth_error ops k = Some op ->
      (forall i op', i < k -> nth_error ops i = Some op' ->
         exists res, answer_at answers h1 sid ops i op' = Ok res) ->
      answer_at answers h1 sid ops k op = Throw e ->
      let closing :=
        on_close answers (h1 ++ map (run_event sid) (firstn (S k) ops)) sid in
      since h (world (snd call)) =
        [EvSession sid; execute_event m sid] ++
        map (run_event sid) (firstn (S k) ops) ++ [EvClose sid] /\
      (closing = None -> fst call = Throw e) /\
      (forall e', closing = Some e' -> fst call = Throw e')) /\
   ((forall i op, nth_error ops i = Some op ->
       exists res, answer_at answers h1 sid ops i op = Ok res) ->
    since h (world (snd call)) =
      [EvSession sid; execute_event m sid] ++
      map (run_event sid) ops ++ [EvClose sid])).
Proof.
  intros Hs h sid p. split; [|split].
  - intros Hrun call closing. unfold call, closing.
    rewrite (read_mock _ _ _ Hs). cbv zeta. fold h sid p.
    unfold run_answer, close_answer. rewrite Hrun.
    cbn [fst snd world map_outcome]. rewrite since_app.
    split; [reflexivity|]. split.
    + intros ->. reflexivity.
    + intros e' ->. reflexivity.
  - intros Hrun call closing. unfold call, closing.
    rewrite (write_mock _ _ _ Hs). cbv zeta. fold h sid p.
    unfold run_answer, close_answer. rewrite Hrun.
    cbn [fst snd world map_outcome]. rewrite since_app.
    split; [reflexivity|]. split.
    + intros ->. reflexivity.
    + intros e' ->. reflexivity.
  - intros m h1 call. split.
    + intros k op Hk Hbefore Hfail closing.
      destruct (loop_fail sid e k ops (mkStore [] h1) op Hk Hbefore Hfail)
        as (outs & Hloop & _).
      cbn [world results app] in Hloop.
      unfold call, closing. rewrite (batch_mock _ _ Hs). cbv zeta.
      fold h sid m h1. rewrite Hloop.
      cbn [fst snd world results map_outcome].
      unfold close_answer. split; [|split].
      * unfold h1. rewrite <- !app_assoc. now rewrite since_app.
      * intros ->. reflexivity.
      * intros e' ->. reflexivity.
    + intros Hall.
      destruct (batch_all_resolve ops st Hs Hall) as (outs & Hcall & _).
      fold h sid m h1 call in Hcall. rewrite Hcall. cbn [snd world].
      unfold h1. rewrite <- !app_assoc. now rewrite since_app.
Qed.

(** C9.  When, in one [read] or [write] call, the [run] rejects with
    [e_run] and [close()] rejects with [e_close], [close()] was called
    after the failing [run], and the call rejects with [e_close]: the
    error of the release hides the error of the execution. *)
Theorem close_failure_masks_execution_failure
    (cypher : string) (params : option JsObject) (st : Store)
    (e_run e_close : JsValue) :
  on_session answers (world st) = None ->
  let h := world st in
  let sid := fresh_sid h in
  let p := or_default empty_object params in
  (on_run answers (h ++ [EvSession sid; EvExecuteRead sid]) sid cypher p
     = inl e_run ->
   on_close answers
     (h ++ [EvSession sid; EvExecuteRead sid; EvRun sid cypher p]) sid
     = Some e_close ->
   let call := read (mockDriver answers) cypher params st in
   fst call = Throw e_close /\
   since h (world (snd call)) =
     [EvSession sid; EvExecuteRead sid; EvRun sid cypher p; EvClose sid]) /\
  (on_run answers (h ++ [EvSession sid; EvExecuteWrite sid]) sid cypher p
     = inl e_run ->
   on_close answers
     (h ++ [EvSession sid; EvExecuteWrite sid; EvRun sid cypher p]) sid
     = Some e_close ->
   let call := write (mockDriver answers) cypher params st in
   fst call = Throw e_close /\
   since h (world (snd call)) =
     [EvSession sid; EvExecuteWrite sid; EvRun sid cypher p; EvClose sid]).
Proof.
  intros Hs h sid p. split.
  - intros Hrun Hclose call. unfold call.
    rewrite (read_mock _ _ _ Hs). cbv zeta. fold h sid p.
    unfold run_answer, close_answer. rewrite Hrun, Hclose.
    cbn [fst snd world map_outcome after_finally].
    now rewrite since_app.
  - intros Hrun Hclose call. unfold call.
    rewrite (write_mock _ _ _ Hs). cbv zeta. fold h sid p.
    unfold run_answer, close_answer. rewrite Hrun, Hclose.
    cbn [fst snd world map_outcome after_finally].
    now rewrite since_app.
Qed.

End Mock.

(* ===================================================================== *)
(** ** Single results *)
(* ===================================================================== *)

Section Single.
Context {T World : Type} {T_null : HasNull T}.
Variable driver : Driver T World.
Local Abbreviation Store := (Store T World).

(** Passing on one's own defaulted [params] is passing on [params]. *)
Lemma read_defaulted (cypher : string) (params : option JsObject) :
  read driver cypher (Some (or_default empty_object params)) =
  read driver cypher params.
Proof. destruct params; reflexivity. Qed.

Lemma write_defaulted (cypher : string) (params : option JsObject) :
  write driver cypher (Some (or_default empty_object params)) =
  write driver cypher params.
Proof. destruct params; reflexivity. Qed.

Lemma readSingle_read (cypher : string) (params : option JsObject)
    (st : Store) :
  readSingle driver cypher params st =
  (map_outcome first_or_null (fst (read driver cypher params st)),
   snd (read driver cypher params st)).
Proof.
  unfold readSingle, bind, ret. rewrite read_defaulted.
  destruct (read driver cypher params st) as [[rows|e] st1]; reflexivity.
Qed.

Lemma writeSingle_write (cypher : string) (params : option JsObject)
    (st : Store) :
  writeSingle driver cypher params st =
  (map_outcome first_or_null (fst (write driver cypher params st)),
   snd (write driver cypher params st)).
Proof.
  unfold writeSingle, bind, ret. rewrite write_defaulted.
  destruct (write driver cypher params st) as [[rows|e] st1]; reflexivity.
Qed.

Lemma first_or_null_nil : first_or_null (@nil T) = null.
Proof. reflexivity. Qed.

Lemma first_or_null_cons (x : T) (rest : list T) :
  first_or_null (x :: rest) = x.
Proof. reflexivity. Qed.

(** C4, amended.  For every driver, query and [params]: when the
    underlying [read] returns a list, [readSingle] returns null if that
    list is empty, and otherwise its first element as it is; so it returns
    null exactly when the list is empty or its first element is null.
    When [read] throws, [readSingle] throws the same value; and
    [readSingle] does to the driver what [read] does.  Likewise
    [writeSingle] over [write]. *)
Theorem single_is_first_or_null
    (cypher : string) (params : option JsObject) (st : Store) :
  let r := read driver cypher params st in
  let rs := readSingle driver cypher params st in
  let w := write driver cypher params st in
  let ws := writeSingle driver cypher params st in
  ((forall rows, fst r = Ok rows ->
      (rows = [] -> fst rs = Ok null) /\
      (forall x rest, rows = x :: rest -> fst rs = Ok x) /\
      (fst rs = Ok null <->
       rows = [] \/ exists rest, rows = null :: rest)) /\
   (forall e, fst r = Throw e -> fst rs = Throw e) /\
   snd rs = snd r) /\
  ((forall rows, fst w = Ok rows ->
      (rows = [] -> fst ws = Ok null) /\
      (forall x rest, rows = x :: rest -> fst ws = Ok x) /\
      (fst ws = Ok null <->
       rows = [] \/ exists rest, rows = null :: rest)) /\
   (forall e, fst w = Throw e -> fst ws = Throw e) /\
   snd ws = snd w).
Proof.
  assert (Hrows : forall rows : list T,
    (rows = [] -> first_or_null rows = null) /\
    (forall x rest, rows = x :: rest -> first_or_null rows = x) /\
    (Ok (first_or_null rows) = @Ok T null <->
     rows = [] \/ exists rest, rows = null :: rest)).
  { intros rows. split; [|split].
    - intros ->. apply first_or_null_nil.
    - intros x rest ->. apply first_or_null_cons.
    - destruct rows as [|x rest].
      + split; [now left | reflexivity].
      + rewrite first_or_null_cons. split.
        * intros Hx. injection Hx as ->. right. now exists rest.
        * intros [Hnil|[rest' Hcons]]; [discriminate|].
          injection Hcons as -> _. reflexivity. }
  cbv zeta. rewrite readSingle_read, writeSingle_write. cbn [fst snd].
  split; (split; [|split; [|reflexivity]]).
  - intros rows ->. cbn [map_outcome].
    destruct (Hrows rows) as (H1 & H2 & H3). split; [|split].
    + intros Hr. now rewrite (H1 Hr).
    + intros x rest Hr. now rewrite (H2 x rest Hr).
    + exact H3.
  - intros e ->. reflexivity.
  - intros rows ->. cbn [map_outcome].
    destruct (Hrows rows) as (H1 & H2 & H3). split; [|split].
    + intros Hr. now rewrite (H1 Hr).
    + intros x rest Hr. now rewrite (H2 x rest Hr).
    + exact H3.
  - intros e ->. reflexivity.
Qed.

End Single.

(* ===================================================================== *)
(** ** Query templates *)
(* ===================================================================== *)

Section Templates.
Context {T : Type} {T_null : HasNull T}.
Variable answers : Answers T.
Local Abbreviation Store := (Store T Trace).

(** Equal texts that are bracketed differently. *)
Ltac reassociate :=
  unfold nl; repeat (progress (cbn [append]; rewrite ?append_assoc));
  reflexivity.

(** The conditions of [findNodes] are built from the keys alone. *)
Lemma whereConditions_keys (properties : JsObject) (returnAlias : string) :
  whereConditions properties returnAlias =
  join " AND "
    (map (fun key => returnAlias ++ "." ++ key ++ " = $" ++ key)
         (keys properties)).
Proof.
  unfold whereConditions, keys, entries. rewrite map_map.
  f_equal. apply map_ext. intros [key value]. reflexivity.
Qed.

(** What a [writeSingle] that is given a session asks of the driver. *)
Lemma writeSingle_calls (cypher : string) (params : JsObject) (st : Store) :
  on_session answers (world st) = None ->
  let during :=
    since (world st)
      (world (snd (writeSingle (mockDriver answers) cypher (Some params)
                               st))) in
  modes during = [WriteMode] /\ runs during = [(cypher, params)].
Proof.
  intros Hs. cbv zeta. rewrite writeSingle_write. cbn [snd].
  rewrite (write_mock _ _ _ _ Hs). cbn [snd world or_default].
  rewrite since_app. split; reflexivity.
Qed.

(** What a [read] that is given a session asks of the driver. *)
Lemma read_calls (cypher : string) (params : option JsObject) (st : Store) :
  on_session answers (world st) = None ->
  let during :=
    since (world st)
      (world (snd (read (mockDriver answers) cypher params st))) in
  modes during = [ReadMode] /\
  runs during = [(cypher, or_default empty_object params)].
Proof.
  intros Hs. cbv zeta. rewrite (read_mock _ _ _ _ Hs). cbn [snd world].
  rewrite since_app. split; reflexivity.
Qed.

(** C5.  [createNode(label, properties)] is, for every driver, the
    [writeSingle] of a query text that contains
    [CREATE (n:<label> $properties)] (the alias [n] being the default),
    with the parameter object [{ properties }]: one key, ["properties"],
    bound to the caller's value.  Given a session, the driver sees one
    write transaction and one [run] with exactly this text and object. *)
Theorem createNode_query (label : string) (properties : JsValue) (st : Store) :
  on_session answers (world st) = None ->
  let cypher :=
    nl ++ "      CREATE (n:" ++ label ++ " $properties)" ++
    nl ++ "      RETURN n" ++
    nl ++ "    " in
  let during :=
    since (world st)
      (world (snd (createNode (mockDriver answers) label properties None
                              st))) in
  (forall World (driver : Driver T World),
     createNode driver label properties None =
     writeSingle driver cypher (Some [("properties", properties)])) /\
  includes cypher ("CREATE (n:" ++ label ++ " $properties)") = true /\
  modes during = [WriteMode] /\
  runs during = [(cypher, [("properties", properties)])].
Proof.
  intros Hs cypher during. split; [|split].
  - reflexivity.
  - apply includes_iff.
    exists (nl ++ "      "), (nl ++ "      RETURN n" ++ nl ++ "    ").
    unfold cypher. reassociate.
  - exact (writeSingle_calls cypher [("properties", properties)] st Hs).
Qed.

(** C7.  [createRelationship(startNodeMatch, endNodeMatch,
    relationshipType, properties)] is, for every driver, the [writeSingle]
    of a query text that contains
    [CREATE (a)-[r:<relationshipType> $properties]->(b)], with the
    parameter object [{ properties }], where [properties] is the empty
    object when the argument is absent.  The creation clause names [a] and
    [b] whatever the two match clauses are.  Given a session, the driver
    sees one write transaction and one [run] with exactly this text and
    object. *)
Theorem createRelationship_query
    (startNodeMatch endNodeMatch relationshipType : string)
    (properties : option JsValue) (st : Store) :
  on_session answers (world st) = None ->
  let creation :=
    "CREATE (a)-[r:" ++ relationshipType ++ " $properties]->(b)" in
  let cypher :=
    nl ++ "      MATCH " ++ startNodeMatch ++
    nl ++ "      MATCH " ++ endNodeMatch ++
    nl ++ "      " ++ creation ++
    nl ++ "      RETURN a, r, b" ++
    nl ++ "    " in
  let props :=
    match properties with
    | Some value => value
    | None => JObj empty_object
    end in
  let during :=
    since (world st)
      (world (snd (createRelationship (mockDriver answers) startNodeMatch
                     endNodeMatch relationshipType properties st))) in
  (forall World (driver : Driver T World),
     createRelationship driver startNodeMatch endNodeMatch relationshipType
                        properties =
     writeSingle driver cypher (Some [("properties", props)])) /\
  includes cypher creation = true /\
  modes during = [WriteMode] /\
  runs during = [(cypher, [("properties", props)])].
Proof.
  intros Hs creation cypher props during.
  assert (Hcypher : createRelationship_cypher startNodeMatch endNodeMatch
                      relationshipType = cypher).
  { unfold createRelationship_cypher, cypher, creation. reassociate. }
  split; [|split].
  - intros World driver. unfold createRelationship. cbv zeta.
    now rewrite Hcypher.
  - apply includes_iff.
    exists (nl ++ "      MATCH " ++ startNodeMatch ++
            nl ++ "      MATCH " ++ endNodeMatch ++ nl ++ "      "),
           (nl ++ "      RETURN a, r, b" ++ nl ++ "    ").
    unfold cypher. reassociate.
  - unfold during, createRelationship. cbv zeta. rewrite Hcypher.
    exact (writeSingle_calls cypher [("properties", props)] st Hs).
Qed.

(** [Array.prototype.join] is the standard library's [String.concat]. *)
Lemma join_concat (sep : string) (xs : list string) :
  join sep xs = String.concat sep xs.
Proof.
  induction xs as [|x rest IH]; [reflexivity|].
  destruct rest as [|y rest]; [reflexivity|].
  change (join sep (x :: y :: rest)) with (x ++ sep ++ join sep (y :: rest)).
  rewrite IH. reflexivity.
Qed.

(** C6.  [findNodes(label)], with [properties] absent or without keys, is
    the [read] of [MATCH (n:<label>) RETURN n] with no [params], so that
    [run] gets the empty object.  With at least one key, it is the [read]
    of a text whose [WHERE] clause is the conditions [n.<key> = $<key>],
    one per key in the order of enumeration, with [" AND "] between each
    two of them (stated with the standard library's [String.concat]), and
    [run] gets the [properties] object itself. *)
Theorem findNodes_query (label : string) (properties : JsObject) (st : Store) :
  on_session answers (world st) = None ->
  let everything := "MATCH (n:" ++ label ++ ") RETURN n" in
  let conditions :=
    String.concat " AND "
      (map (fun key => "n." ++ key ++ " = $" ++ key) (keys properties)) in
  let filtered :=
    nl ++ "      MATCH (n:" ++ label ++ ")" ++
    nl ++ "      WHERE " ++ conditions ++
    nl ++ "      RETURN n" ++
    nl ++ "    " in
  let during (call : M Store (list T)) :=
    since (world st) (world (snd (call st))) in
  ((forall World (driver : Driver T World),
      findNodes driver label None None = read driver everything None /\
      findNodes driver label (Some empty_object) None =
        read driver everything None) /\
   modes (during (findNodes (mockDriver answers) label None None))
     = [ReadMode] /\
   runs (during (findNodes (mockDriver answers) label None None))
     = [(everything, empty_object)] /\
   modes (during (findNodes (mockDriver answers) label (Some empty_object)
                            None))
     = [ReadMode] /\
   runs (during (findNodes (mockDriver answers) label (Some empty_object)
                           None))
     = [(everything, empty_object)]) /\
  (properties <> empty_object ->
   (forall World (driver : Driver T World),
      findNodes driver label (Some properties) None =
      read driver filtered (Some properties)) /\
   includes filtered ("WHERE " ++ conditions) = true /\
   modes (during (findNodes (mockDriver answers) label (Some properties)
                            None))
     = [ReadMode] /\
   runs (during (findNodes (mockDriver answers) label (Some properties)
                           None))
     = [(filtered, properties)]).
Proof.
  intros Hs everything conditions filtered during. split.
  - split; [intros World driver; split; reflexivity|].
    unfold during. change (findNodes (mockDriver answers) label None None)
      with (read (mockDriver answers) everything None).
    change (findNodes (mockDriver answers) label (Some empty_object) None)
      with (read (mockDriver answers) everything None).
    destruct (read_calls everything None st Hs) as [Hm Hr].
    repeat split; assumption.
  - intros Hne.
    assert (Hcypher : findNodes_where_cypher label properties "n" = filtered).
    { unfold findNodes_where_cypher, filtered, conditions.
      rewrite whereConditions_keys, join_concat. reflexivity. }
    assert (Hfind : forall World (driver : Driver T World),
      findNodes driver label (Some properties) None =
      read driver filtered (Some properties)).
    { intros World driver. unfold findNodes. cbv zeta.
      cbn [or_default]. rewrite Hcypher.
      destruct properties as [|entry rest]; [contradiction Hne|]; reflexivity. }
    split; [exact Hfind|]. split.
    + apply includes_iff.
      exists (nl ++ "      MATCH (n:" ++ label ++ ")" ++ nl ++ "      "),
             (nl ++ "      RETURN n" ++ nl ++ "    ").
      unfold filtered. reassociate.
    + unfold during. rewrite Hfind.
      exact (read_calls filtered (Some properties) st Hs).
Qed.

End Templates.

(* ===================================================================== *)
(** ** Concrete runs *)
(* ===================================================================== *)

(** *** The scenarios of the test suite *)

Example read_one_row :
  read (mockDriver Examples.steady) "MATCH (n) RETURN n LIMIT 1"
       (Some empty_object) Examples.st0 =
  (Ok [Examples.row],
   mkStore []
     [EvSession 0; EvExecuteRead 0;
      EvRun 0 "MATCH (n) RETURN n LIMIT 1" empty_object; EvClose 0]).
Proof. reflexivity. Qed.

Example readSingle_one_row :
  fst (readSingle (mockDriver Examples.steady) "MATCH (n) RETURN n LIMIT 1"
                  None Examples.st0) = Ok Examples.row.
Proof. reflexivity. Qed.

Example readSingle_no_row :
  fst (readSingle (mockDriver Examples.no_rows)
                  "MATCH (n:NonExistent) RETURN n" None Examples.st0) =
  Ok JNull.
Proof. reflexivity. Qed.

Example batch_two_matches :
  batch (mockDriver Examples.steady) Examples.two_matches Examples.st0 =
  (Ok [[Examples.row]; [Examples.row]],
   mkStore [[Examples.row]; [Examples.row]]
     [EvSession 0; EvExecuteRead 0;
      EvRun 0 "MATCH (n:Label1) RETURN n" empty_object;
      EvRun 0 "MATCH (n:Label2) RETURN n" [("param", JStr "value")];
      EvClose 0]).
Proof. reflexivity. Qed.

(** A write flag without CREATE in the text: read mode; CREATE in the text
    under a read flag: write mode. *)
Example batch_ignores_isWrite :
  modes (world (snd (batch (mockDriver Examples.steady)
                           Examples.flagged_write Examples.st0))) =
    [ReadMode] /\
  modes (world (snd (batch (mockDriver Examples.steady)
                           Examples.flagged_read Examples.st0))) =
    [WriteMode].
Proof. split; reflexivity. Qed.

(** The second operation fails: the first one ran, no third call is made,
    the session is closed, the error comes out as it is. *)
Example batch_second_fails :
  batch (mockDriver Examples.second_run_rejects)
        (Examples.two_matches ++ Examples.flagged_write)%list Examples.st0 =
  (Throw Examples.engine_error,
   mkStore [[Examples.row]]
     [EvSession 0; EvExecuteRead 0;
      EvRun 0 "MATCH (n:Label1) RETURN n" empty_object;
      EvRun 0 "MATCH (n:Label2) RETURN n" [("param", JStr "value")];
      EvClose 0]).
Proof. reflexivity. Qed.

(** No session: the error of [session()] comes out; nothing to close. *)
Example read_without_session :
  read (mockDriver {| on_session := fun _ => Some Examples.close_error;
                      on_run := fun _ _ _ _ => inr Examples.mockResult;
                      on_close := fun _ _ => None |})
       "MATCH (n) RETURN n" None Examples.st0 =
  (Throw Examples.close_error, mkStore [] [EvSessionFailed]).
Proof. reflexivity. Qed.

(** *** Instances of the theorems *)

Lemma session_closed_exactly_once_witness :
  on_session Examples.run_rejects (world Examples.st0) = None /\
  fst (read (mockDriver Examples.run_rejects) "MATCH (n) RETURN n" None
            Examples.st0) = Throw Examples.engine_error /\
  closed (world (snd (read (mockDriver Examples.run_rejects)
                           "MATCH (n) RETURN n" None Examples.st0))) = [0] /\
  closed (world (snd (write (mockDriver Examples.run_rejects)
                            "MATCH (n) RETURN n" None Examples.st0))) = [0].
Proof.
  split; [reflexivity|]. split; [reflexivity|].
  pose proof (session_closed_exactly_once Examples.run_rejects
                "MATCH (n) RETURN n" None Examples.st0 eq_refl) as H.
  exact (conj (proj1 (proj2 (proj1 H))) (proj1 (proj2 (proj2 H)))).
Defined.

Lemma batch_mode_from_query_texts_witness :
  on_session Examples.steady (world Examples.st0) = None /\
  modes (world (snd (batch (mockDriver Examples.steady)
                           Examples.flagged_read Examples.st0))) =
    [WriteMode].
Proof.
  split; [reflexivity|].
  apply (proj1 (proj2 (batch_mode_from_query_texts Examples.steady
                         Examples.flagged_read Examples.st0 eq_refl))).
  exists {| query := "CREATE (n:Label1) RETURN n"; params := None;
            isWrite := Some false |}.
  split; [left; reflexivity|].
  exists "", " (n:Label1) RETURN n". reflexivity.
Defined.


Lemma createNode_query_witness :
  on_session Examples.steady (world Examples.st0) = None /\
  includes
    (createNode_cypher "Person" "n") "CREATE (n:Person $properties)" = true /\
  runs (world (snd (createNode (mockDriver Examples.steady) "Person"
                      (JObj [("name", JStr "John"); ("age", JNum 30)])
                      None Examples.st0))) =
    [(createNode_cypher "Person" "n",
      [("properties", JObj [("name", JStr "John"); ("age", JNum 30)])])].
Proof.
  split; [reflexivity|].
  pose proof (createNode_query Examples.steady "Person"
                (JObj [("name", JStr "John"); ("age", JNum 30)])
                Examples.st0 eq_refl) as H.
  exact (conj (proj1 (proj2 H)) (proj2 (proj2 (proj2 H)))).
Defined.

Lemma findNodes_query_witness :
  on_session Examples.steady (world Examples.st0) = None /\
  [("name", JStr "John"); ("age", JNum 30)] <> empty_object /\
  runs (world (snd (findNodes (mockDriver Examples.steady) "Person"
                      (Some [("name", JStr "John"); ("age", JNum 30)]) None
                      Examples.st0))) =
    [(nl ++ "      MATCH (n:Person)" ++
      nl ++ "      WHERE n.name = $name AND n.age = $age" ++
      nl ++ "      RETURN n" ++
      nl ++ "    ",
      [("name", JStr "John"); ("age", JNum 30)])].
Proof.
  assert (Hne : [("name", JStr "John"); ("age", JNum 30)] <> empty_object)
    by discriminate.
  split; [reflexivity|]. split; [exact Hne|].
  exact (proj2 (proj2 (proj2
    (proj2 (findNodes_query Examples.steady "Person"
              [("name", JStr "John"); ("age", JNum 30)]
              Examples.st0 eq_refl) Hne)))).
Defined.

Lemma createRelationship_query_witness :
  on_session Examples.steady (world Examples.st0) = None /\
  includes
    (createRelationship_cypher "(x:Person {id: 1})" "(y:Movie {id: 2})"
                               "ACTED_IN")
    "CREATE (a)-[r:ACTED_IN $properties]->(b)" = true /\
  runs (world (snd (createRelationship (mockDriver Examples.steady)
                      "(x:Person {id: 1})" "(y:Movie {id: 2})" "ACTED_IN"
                      None Examples.st0))) =
    [(createRelationship_cypher "(x:Person {id: 1})" "(y:Movie {id: 2})"
                                "ACTED_IN",
      [("properties", JObj empty_object)])].
Proof.
  split; [reflexivity|].
  pose proof (createRelationship_query Examples.steady
                "(x:Person {id: 1})" "(y:Movie {id: 2})" "ACTED_IN" None
                Examples.st0 eq_refl) as H.
  exact (conj (proj1 (proj2 H)) (proj2 (proj2 (proj2 H)))).
Defined.

Lemma execution_failure_propagates_witness :
  on_session Examples.run_rejects (world Examples.st0) = None /\
  fst (read (mockDriver Examples.run_rejects) "MATCH (n) RETURN n" None
            Examples.st0) = Throw Examples.engine_error /\
  fst (write (mockDriver Examples.run_rejects) "MATCH (n) RETURN n" None
             Examples.st0) = Throw Examples.engine_error /\
  fst (batch (mockDriver Examples.run_rejects) Examples.two_matches
             Examples.st0) = Throw Examples.engine_error /\
  closed (world (snd (batch (mockDriver Examples.run_rejects)
                            Examples.two_matches Examples.st0))) = [0].
Proof.
  split; [reflexivity|].
  pose proof (execution_failure_propagates Examples.run_rejects
                "MATCH (n) RETURN n" None Examples.two_matches Examples.st0
                Examples.engine_error eq_refl) as (Hr & Hw & Hb & _).
  split; [exact (proj1 (proj2 (Hr eq_refl)) eq_refl)|].
  split; [exact (proj1 (proj2 (Hw eq_refl)) eq_refl)|].
  assert (Hbefore : forall i op', i < 0 ->
            nth_error Examples.two_matches i = Some op' ->
            exists res,
              answer_at Examples.run_rejects [EvSession 0; EvExecuteRead 0] 0
                        Examples.two_matches i op' = Ok res).
  { intros i op' Hi. exfalso. exact (Nat.nlt_0_r i Hi). }
  pose proof (Hb 0 _ eq_refl Hbefore eq_refl) as (Ht & Hc & _).
  split; [exact (Hc eq_refl)|].
  exact (eq_trans (f_equal closed Ht) eq_refl).
Defined.

(** C8, as stated, fails where [close()] rejects as well: the execution
    fails with [engine_error], and the caller does not receive it. *)
Lemma execution_failure_hidden_when_close_rejects :
  ~ (forall e,
       on_run Examples.both_reject [EvSession 0; EvExecuteRead 0] 0
              "MATCH (n) RETURN n" empty_object = inl e ->
       fst (read (mockDriver Examples.both_reject) "MATCH (n) RETURN n" None
                 Examples.st0) = Throw e).
Proof.
  intros H. specialize (H Examples.engine_error eq_refl).
  vm_compute in H. discriminate H.
Qed.

Lemma close_failure_masks_execution_failure_witness :
  on_session Examples.both_reject (world Examples.st0) = None /\
  fst (read (mockDriver Examples.both_reject) "MATCH (n) RETURN n" None
            Examples.st0) = Throw Examples.close_error /\
  fst (write (mockDriver Examples.both_reject) "MATCH (n) RETURN n" None
             Examples.st0) = Throw Examples.close_error.
Proof.
  split; [reflexivity|].
  pose proof (close_failure_masks_execution_failure Examples.both_reject
                "MATCH (n) RETURN n" None Examples.st0
                Examples.engine_error Examples.close_error eq_refl)
    as (Hr & Hw).
  exact (conj (proj1 (Hr eq_refl eq_refl)) (proj1 (Hw eq_refl eq_refl))).
Defined.

Lemma batch_of_nothing_witness :
  on_session Examples.steady (world Examples.st0) = None /\
  world (snd (batch (mockDriver Examples.steady) [] Examples.st0)) =
    [EvSession 0; EvExecuteRead 0; EvClose 0] /\
  fst (batch (mockDriver Examples.steady) [] Examples.st0) = Ok [].
Proof.
  split; [reflexivity|].
  pose proof (batch_of_nothing Examples.steady Examples.st0 eq_refl) as H.
  exact (conj (proj1 H)
              (proj2 (proj2 (proj2 (proj2 (proj2 H)))) eq_refl)).
Defined.

(* ===================================================================== *)
(** ** Every call and its session *)
(* ===================================================================== *)

Section Lifecycle.
Context {T : Type} {T_null : HasNull T}.
Variable answers : Answers T.
Local Abbreviation Store := (Store T Trace).
Local Open Scope list_scope.

Lemma session_calls_app (a b : Trace) :
  session_calls (a ++ b) = session_calls a + session_calls b.
Proof. unfold session_calls. now rewrite flat_map_app, length_app. Qed.

Lemma write_no_session (cypher : string) (params : option JsObject)
    (st : Store) (e : JsValue) :
  on_session answers (world st) = Some e ->
  write (mockDriver answers) cypher params st =
  (Throw e, mkStore (results st) (world st ++ [EvSessionFailed])).
Proof.
  intros Hs. unfold write, bind, mockDriver, session. cbv zeta.
  rewrite Hs. reflexivity.
Qed.

Lemma batch_no_session (ops : list Operation) (st : Store) (e : JsValue) :
  on_session answers (world st) = Some e ->
  batch (mockDriver answers) ops st =
  (Throw e, mkStore (results st) (world st ++ [EvSessionFailed])).
Proof.
  intros Hs. unfold batch, bind, mockDriver, session. cbv zeta.
  rewrite Hs. reflexivity.
Qed.

(** The calls that end in a [read] or a [write]. *)
Lemma findNodes_is_read (label : string) (properties : option JsObject)
    (returnAlias : option string) :
  exists cypher params,
    findNodes (mockDriver answers) label properties returnAlias =
    read (mockDriver answers) cypher params.
Proof.
  unfold findNodes. cbv zeta.
  destruct properties as [props|]; [|eauto].
  destruct (length (keys props) =? 0)%nat; eauto.
Qed.

(** What a call does to the driver, as a [read], a [write] or a [batch]
    does it. *)
Lemma perform_effect (c : Call) (st : Store) :
  (exists cypher params,
     snd (perform (mockDriver answers) c st) =
       snd (read (mockDriver answers) cypher params st) /\
     (forall e, fst (read (mockDriver answers) cypher params st) = Throw e ->
                fst (perform (mockDriver answers) c st) = Throw e)) \/
  (exists cypher params,
     snd (perform (mockDriver answers) c st) =
       snd (write (mockDriver answers) cypher params st) /\
     (forall e, fst (write (mockDriver answers) cypher params st) = Throw e ->
                fst (perform (mockDriver answers) c st) = Throw e)) \/
  (exists ops,
     snd (perform (mockDriver answers) c st) =
       snd (batch (mockDriver answers) ops st) /\
     (forall e, fst (batch (mockDriver answers) ops st) = Throw e ->
                fst (perform (mockDriver answers) c st) = Throw e)).
Proof.
  destruct c as [q p|q p|q p|q p|label props al|label props al
                 |sm em ty props|ops];
    cbn [perform]; unfold forget; cbn [fst snd].
  - left. exists q, p. split; [reflexivity|]. now intros e ->.
  - right; left. exists q, p. split; [reflexivity|]. now intros e ->.
  - left. exists q, p. rewrite readSingle_read. cbn [fst snd].
    split; [reflexivity|]. now intros e ->.
  - right; left. exists q, p. rewrite writeSingle_write.
    cbn [fst snd]. split; [reflexivity|]. now intros e ->.
  - right; left. unfold createNode. cbv zeta.
    eexists _, _. rewrite writeSingle_write. cbn [fst snd].
    split; [reflexivity|]. now intros e ->.
  - left. destruct (findNodes_is_read label props al) as (q & p & ->).
    exists q, p. split; [reflexivity|]. now intros e ->.
  - right; left. unfold createRelationship. cbv zeta.
    eexists _, _. rewrite writeSingle_write. cbn [fst snd].
    split; [reflexivity|]. now intros e ->.
  - right; right. exists ops. split; [reflexivity|]. now intros e ->.
Qed.

(** Without a session: the error of [session()], and no further call. *)
Lemma perform_no_session (c : Call) (st : Store) (e : JsValue) :
  on_session answers (world st) = Some e ->
  fst (perform (mockDriver answers) c st) = Throw e /\
  world (snd (perform (mockDriver answers) c st)) =
    world st ++ [EvSessionFailed].
Proof.
  intros Hs.
  destruct (perform_effect c st)
    as [(q & p & Hsnd & Hfst) | [(q & p & Hsnd & Hfst) | (ops & Hsnd & Hfst)]];
    rewrite Hsnd.
  - rewrite (read_no_session _ _ _ _ _ Hs) in *. split; [now apply Hfst|].
    reflexivity.
  - rewrite (write_no_session _ _ _ _ Hs) in *. split; [now apply Hfst|].
    reflexivity.
  - rewrite (batch_no_session _ _ _ Hs) in *. split; [now apply Hfst|].
    reflexivity.
Qed.

(** With a session: the session, calls that neither open nor close one,
    and [close()]. *)
Lemma perform_granted (c : Call) (st : Store) :
  on_session answers (world st) = None ->
  let sid := fresh_sid (world st) in
  exists mid,
    world (snd (perform (mockDriver answers) c st)) =
      world st ++ EvSession sid :: mid ++ [EvClose sid] /\
    acquired mid = [] /\ closed mid = [] /\ session_calls mid = 0.
Proof.
  intros Hs sid.
  destruct (perform_effect c st)
    as [(q & p & Hsnd & _) | [(q & p & Hsnd & _) | (ops & Hsnd & _)]];
    rewrite Hsnd.
  - rewrite (read_mock _ _ _ _ Hs). cbn [snd world]. fold sid.
    exists [EvExecuteRead sid; EvRun sid q (or_default empty_object p)].
    repeat split.
  - rewrite (write_mock _ _ _ _ Hs). cbn [snd world]. fold sid.
    exists [EvExecuteWrite sid; EvRun sid q (or_default empty_object p)].
    repeat split.
  - destruct (batch_trace _ ops st Hs) as [j ->]. fold sid.
    exists (execute_event (if needsWrite ops then WriteMode else ReadMode) sid
              :: map (run_event sid) (firstn j ops)).
    split; [reflexivity|].
    assert (Hquiet : forall l : list Operation,
              session_calls (map (run_event sid) l) = 0).
    { induction l as [|x l IH]; [reflexivity | exact IH]. }
    destruct (needsWrite ops); cbn;
      rewrite ?acquired_run_events, ?closed_run_events;
      repeat split; apply Hquiet.
Qed.

(** Either way: one call to [session()], and as many sessions closed as
    acquired, the same ones. *)
Lemma perform_balanced (c : Call) (st : Store) :
  exists evs,
    world (snd (perform (mockDriver answers) c st)) = world st ++ evs /\
    session_calls evs = 1 /\
    closed evs = acquired evs /\
    (forall sid, In sid (acquired evs) ->
                 last evs (EvSession sid) = EvClose sid).
Proof.
  destruct (on_session answers (world st)) as [e|] eqn:Hs.
  - destruct (perform_no_session c st e Hs) as [_ Hw].
    exists [EvSessionFailed]. repeat split; [exact Hw|].
    intros sid [].
  - destruct (perform_granted c st Hs) as (mid & Hw & Ha & Hc & Hn).
    exists (EvSession (fresh_sid (world st)) :: mid ++
            [EvClose (fresh_sid (world st))]).
    split; [exact Hw|].
    change (EvSession (fresh_sid (world st)) :: mid ++
            [EvClose (fresh_sid (world st))])
      with ([EvSession (fresh_sid (world st))] ++ mid ++
            [EvClose (fresh_sid (world st))]).
    rewrite !session_calls_app, !closed_app, !acquired_app, Ha, Hc, Hn.
    split; [reflexivity|]. split; [reflexivity|].
    intros sid Hin. cbn in Hin. destruct Hin as [<-|[]].
    rewrite app_assoc. apply last_last.
Qed.

(** X1.  When [driver.session()] throws, every function of the client
    rejects with the value thrown, and asks nothing more of the driver: no
    transaction, no [run], and no [close()], there being no session to
    close. *)
Theorem acquisition_failure_propagates (c : Call) (st : Store) (e : JsValue) :
  on_session answers (world st) = Some e ->
  let call := perform (mockDriver answers) c st in
  let during := since (world st) (world (snd call)) in
  fst call = Throw e /\
  during = [EvSessionFailed] /\
  modes during = [] /\ runs during = [] /\ closed during = [].
Proof.
  intros Hs call during.
  destruct (perform_no_session c st e Hs) as [Hfst Hw].
  unfold during, call. rewrite Hw, since_app. repeat split. exact Hfst.
Qed.

(** X2.  Every function of the client, whatever the driver answers, calls
    [driver.session()] exactly once and closes as many sessions as it
    acquired, namely the one it acquired if it acquired one; that
    [close()] is the last thing it asks of the driver. *)
Theorem every_call_releases_its_session (c : Call) (st : Store) :
  let during :=
    since (world st) (world (snd (perform (mockDriver answers) c st))) in
  session_calls during = 1 /\
  closed during = acquired during /\
  length (acquired during) <= 1 /\
  (forall sid, In sid (acquired during) ->
               last during (EvSession sid) = EvClose sid).
Proof.
  cbv zeta.
  destruct (perform_balanced c st) as (evs & Hw & Hn & Hbal & Hlast).
  rewrite Hw, since_app. repeat split; try assumption.
  unfold session_calls in Hn. unfold acquired.
  clear - Hn. revert Hn. generalize 1 as n.
  induction evs as [|ev evs IH]; intros n Hn; [cbn; lia|].
  destruct ev; cbn in *; try (apply IH; exact Hn).
  - destruct n as [|n]; [discriminate|].
    injection Hn as Hn. specialize (IH n Hn). lia.
  - destruct n as [|n]; [discriminate|].
    injection Hn as Hn. specialize (IH n Hn). lia.
Qed.

(** X3.  A caller that makes any number of calls one after the other, on
    a driver on which no session was open before, leaves no session open
    after, whatever the calls were and however each of them ended; and it
    made one call to [driver.session()] per call. *)
Theorem no_session_left_open (calls : list Call) (st : Store) :
  closed (world st) = acquired (world st) ->
  let st' := perform_all (mockDriver answers) calls st in
  closed (world st') = acquired (world st') /\
  session_calls (world st') = session_calls (world st) + length calls.
Proof.
  revert st. induction calls as [|c calls IH]; intros st Hbal; cbn.
  - split; [exact Hbal | lia].
  - destruct (perform_balanced c st) as (evs & Hw & Hn & Hevs & _).
    destruct (IH (snd (perform (mockDriver answers) c st))) as [H1 H2].
    { rewrite Hw, closed_app, acquired_app, Hbal, Hevs. reflexivity. }
    split; [exact H1|].
    rewrite H2, Hw, session_calls_app, Hn. lia.
Qed.

End Lifecycle.

Lemma acquisition_failure_propagates_witness :
  on_session MoreExamples.no_session (world Examples.st0) =
    Some Examples.engine_error /\
  fst (perform (mockDriver MoreExamples.no_session)
               (CallBatch Examples.two_matches) Examples.st0) =
    Throw Examples.engine_error /\
  world (snd (perform (mockDriver MoreExamples.no_session)
                      (CallBatch Examples.two_matches) Examples.st0)) =
    [EvSessionFailed].
Proof.
  split; [reflexivity|].
  pose proof (acquisition_failure_propagates MoreExamples.no_session
                (CallBatch Examples.two_matches) Examples.st0
                Examples.engine_error eq_refl) as H.
  exact (conj (proj1 H) (proj1 (proj2 H))).
Defined.

Lemma no_session_left_open_witness :
  closed (world Examples.st0) = acquired (world Examples.st0) /\
  closed (world (perform_all (mockDriver Examples.second_run_rejects)
                             MoreExamples.script Examples.st0)) =
    [0; 1; 2; 3] /\
  acquired (world (perform_all (mockDriver Examples.second_run_rejects)
                               MoreExamples.script Examples.st0)) =
    [0; 1; 2; 3].
Proof.
  split; [reflexivity|].
  pose proof (no_session_left_open Examples.second_run_rejects
                MoreExamples.script Examples.st0 eq_refl) as H.
  split; [|reflexivity].
  exact (eq_trans (proj1 H) eq_refl).
Defined.

(* ===================================================================== *)
(** ** What the calls return *)
(* ===================================================================== *)

Section Results.
Context {T : Type}.
Variable answers : Answers T.
Local Abbreviation Store := (Store T Trace).
Local Open Scope list_scope.

Lemma project_nth (res : Neo4jResult T) (i : nat) (rec : Neo4jRecord T) :
  nth_error (records res) i = Some rec ->
  nth_error (project res) i = Some (toObject rec tt).
Proof.
  intros H. unfold project.
  now rewrite nth_error_map, H.
Qed.

(** A loop that came to its end ran every operation and pushed one list
    of rows for each. *)
Lemma loop_completed (sid : nat) (ops : list Operation) :
  forall st st' : Store,
  for_of ops (batch_step (mockTransaction answers sid)) st = (Ok tt, st') ->
  world st' = world st ++ map (run_event sid) ops /\
  exists outs, results st' = results st ++ outs /\
               length outs = length ops.
Proof.
  induction ops as [|op ops IH]; intros st st' H.
  - cbn in H. injection H as <-. rewrite app_nil_r. split; [reflexivity|].
    exists []. now rewrite app_nil_r.
  - cbn [for_of] in H. unfold bind at 1 in H. rewrite body_step in H.
    destruct (run_answer answers _ _ _ _) as [res|e]; [|discriminate].
    destruct (IH _ _ H) as (Hw & outs & Hr & Hlen).
    cbn [world results] in Hw, Hr. split.
    + rewrite Hw, <- app_assoc. reflexivity.
    + exists (project res :: outs). split.
      * rewrite Hr, <- app_assoc. reflexivity.
      * cbn. now rewrite Hlen.
Qed.

Lemma loop_of_one {A} (x : A) (body : A -> M Store unit) (st : Store) :
  for_of [x] body st = body x st.
Proof.
  cbn [for_of]. unfold bind, ret.
  destruct (body x st) as [[[]|e] st1]; reflexivity.
Qed.

(** X4.  When [read] is given a session, its [run] resolves to a result
    and [close()] resolves, [read] returns one object per record of the
    result, in the order of the records: the [i]-th is what the [i]-th
    record's [toObject()] gives.  Likewise [write]. *)
Theorem read_returns_every_row
    (cypher : string) (params : option JsObject) (st : Store)
    (res : Neo4jResult T) :
  on_session answers (world st) = None ->
  let h := world st in
  let sid := fresh_sid h in
  let p := or_default empty_object params in
  (on_run answers (h ++ [EvSession sid; EvExecuteRead sid]) sid cypher p
     = inr res ->
   on_close answers
     (h ++ [EvSession sid; EvExecuteRead sid; EvRun sid cypher p]) sid
     = None ->
   exists rows,
     fst (read (mockDriver answers) cypher params st) = Ok rows /\
     length rows = length (records res) /\
     forall i rec, nth_error (records res) i = Some rec ->
                   nth_error rows i = Some (toObject rec tt)) /\
  (on_run answers (h ++ [EvSession sid; EvExecuteWrite sid]) sid cypher p
     = inr res ->
   on_close answers
     (h ++ [EvSession sid; EvExecuteWrite sid; EvRun sid cypher p]) sid
     = None ->
   exists rows,
     fst (write (mockDriver answers) cypher params st) = Ok rows /\
     length rows = length (records res) /\
     forall i rec, nth_error (records res) i = Some rec ->
                   nth_error rows i = Some (toObject rec tt)).
Proof.
  intros Hs h sid p. split; intros Hrun Hclose; exists (project res).
  - rewrite (read_mock _ _ _ _ Hs). cbv zeta. fold h sid p.
    unfold run_answer, close_answer. rewrite Hrun, Hclose.
    split; [reflexivity|]. split; [apply length_map|].
    intros i rec. apply project_nth.
  - rewrite (write_mock _ _ _ _ Hs). cbv zeta. fold h sid p.
    unfold run_answer, close_answer. rewrite Hrun, Hclose.
    split; [reflexivity|]. split; [apply length_map|].
    intros i rec. apply project_nth.
Qed.

(** X5.  On a session that calls the callback exactly once: [read] never
    starts a write transaction and [write] never a read transaction,
    whatever the query text says ([batch] alone looks into the text);
    neither calls [run] more than once, and the one call gets the caller's
    text as it is and the caller's [params], or the empty object. *)
Theorem read_and_write_keep_their_mode
    (cypher : string) (params : option JsObject) (st : Store) :
  let during_read :=
    since (world st)
          (world (snd (read (mockDriver answers) cypher params st))) in
  let during_write :=
    since (world st)
          (world (snd (write (mockDriver answers) cypher params st))) in
  let p := match params with Some o => o | None => empty_object end in
  (~ In WriteMode (modes during_read) /\
   length (runs during_read) <= 1 /\
   forall call, In call (runs during_read) -> call = (cypher, p)) /\
  (~ In ReadMode (modes during_write) /\
   length (runs during_write) <= 1 /\
   forall call, In call (runs during_write) -> call = (cypher, p)).
Proof.
  cbv zeta. destruct (on_session answers (world st)) as [e|] eqn:Hs.
  - rewrite (read_no_session _ _ _ _ _ Hs), (write_no_session _ _ _ _ _ Hs).
    cbn [snd world]. rewrite since_app. cbn.
    repeat split; try lia; intros; contradiction.
  - rewrite (read_mock _ _ _ _ Hs), (write_mock _ _ _ _ Hs).
    cbn [snd world]. rewrite !since_app. cbn.
    repeat split; try lia;
      try (intros [H|[]]; discriminate H);
      intros call [<-|[]]; destruct params; reflexivity.
Qed.

(** X6.  On a session that calls the callback exactly once: a [batch] of
    one operation asks of the driver what a [write] of that operation's
    query and [params] asks when the text contains ["CREATE"], and what a
    [read] asks otherwise; it throws what that call throws, and returns
    the one-element list of what that call returns. *)
Theorem batch_of_one (op : Operation) (st : Store) :
  let single :=
    if includes (query op) "CREATE"
    then write (mockDriver answers) (query op) (params op) st
    else read (mockDriver answers) (query op) (params op) st in
  let call := batch (mockDriver answers) [op] st in
  fst call = map_outcome (fun rows => [rows]) (fst single) /\
  world (snd call) = world (snd single).
Proof.
  cbv zeta. destruct (on_session answers (world st)) as [e|] eqn:Hs.
  - rewrite (batch_no_session _ _ _ _ Hs).
    destruct (includes (query op) "CREATE");
      [rewrite (write_no_session _ _ _ _ _ Hs)
      |rewrite (read_no_session _ _ _ _ _ Hs)]; split; reflexivity.
  - rewrite (batch_mock _ _ _ Hs). cbv zeta.
    unfold needsWrite. cbn [existsb]. rewrite orb_false_r.
    rewrite loop_of_one, body_step. cbn [world results].
    assert (Hp : params_or_empty op = or_default empty_object (params op))
      by reflexivity.
    destruct (includes (query op) "CREATE");
      [rewrite (write_mock _ _ _ _ Hs) | rewrite (read_mock _ _ _ _ Hs)];
      cbv zeta; cbn [execute_event fst snd world]; rewrite <- Hp;
      unfold run_event;
      destruct (run_answer answers _ _ (query op) (params_or_empty op))
        as [res|e];
      cbn [ret fst snd world results map_outcome app];
      rewrite <- ?app_assoc; cbn [app];
      destruct (close_answer answers _ _) as [[]|e'];
      split; reflexivity.
Qed.

(** X7.  On a session that calls the callback exactly once, [batch]
    returns no partial list: whenever it returns a list at all, [run] was
    called for every operation, once and in order, and the list has one
    element per operation. *)
Theorem batch_returns_only_complete_lists
    (ops : list Operation) (st : Store) (outs : list (list T)) :
  fst (batch (mockDriver answers) ops st) = Ok outs ->
  length outs = length ops /\
  runs (since (world st) (world (snd (batch (mockDriver answers) ops st)))) =
    map (fun op => (query op,
                    match params op with
                    | Some p => p
                    | None => empty_object
                    end)) ops.
Proof.
  destruct (on_session answers (world st)) as [e|] eqn:Hs.
  - rewrite (batch_no_session _ _ _ _ Hs). discriminate.
  - rewrite (batch_mock _ _ _ Hs). cbv zeta. cbn [fst snd world].
    destruct (for_of ops _ _) as [[[]|e] st1] eqn:Hloop;
      cbn [fst snd map_outcome];
      destruct (close_answer answers _ _) as [[]|e'];
      cbn [after_finally]; try discriminate.
    intros Hout. injection Hout as <-.
    destruct (loop_completed _ _ _ _ Hloop) as (Hw & outs & Hr & Hlen).
    cbn [world results app] in Hw, Hr. split.
    + now rewrite Hr.
    + rewrite Hw, <- !app_assoc, since_app.
      rewrite !runs_app, runs_run_events.
      destruct (needsWrite ops); cbn; rewrite app_nil_r; reflexivity.
Qed.

End Results.

(* ===================================================================== *)
(** ** More on the query templates *)
(* ===================================================================== *)

Section MoreTemplates.
Context {T : Type} {T_null : HasNull T}.
Variable answers : Answers T.
Local Abbreviation Store := (Store T Trace).

Ltac regroup :=
  unfold nl; repeat (progress (cbn [append]; rewrite ?append_assoc));
  reflexivity.

Lemma append_empty_r (s : string) : s ++ "" = s.
Proof. induction s as [|ch s IH]; cbn; [reflexivity | now rewrite IH]. Qed.

(** What occurs in a part occurs in the whole. *)
Lemma includes_within (a t b x : string) :
  includes t x = true -> includes (a ++ t ++ b) x = true.
Proof.
  intros H. apply includes_inv in H as (l & r & ->).
  apply includes_iff. exists (a ++ l), (r ++ b).
  now rewrite !append_assoc.
Qed.

(** Every element of a joined array occurs in the result. *)
Lemma includes_join (sep x : string) (xs : list string) :
  In x xs -> includes (join sep xs) x = true.
Proof.
  induction xs as [|y rest IH]; intros Hin; [contradiction|].
  destruct Hin as [->|Hin].
  - destruct rest as [|z rest]; cbn [join].
    + rewrite <- (append_empty_r x) at 1. apply (includes_intro "" x "").
    + apply (includes_intro "" x).
  - destruct rest as [|z rest]; [contradiction|].
    change (join sep (y :: z :: rest))
      with (y ++ sep ++ join sep (z :: rest)).
    rewrite <- (append_empty_r (join sep (z :: rest))).
    rewrite <- append_assoc.
    apply includes_within. now apply IH.
Qed.

(** X8.  Given an alias, [createNode] uses it twice: the text that it has
    the driver run in a write transaction contains
    [CREATE (<alias>:<label> $properties)] and [RETURN <alias>]; the
    parameter object is [{ properties }] as for the default alias. *)
Theorem createNode_with_alias
    (label returnAlias : string) (properties : JsValue) (st : Store) :
  on_session answers (world st) = None ->
  let cypher :=
    nl ++ "      CREATE (" ++ returnAlias ++ ":" ++ label ++ " $properties)" ++
    nl ++ "      RETURN " ++ returnAlias ++
    nl ++ "    " in
  let during :=
    since (world st)
      (world (snd (createNode (mockDriver answers) label properties
                              (Some returnAlias) st))) in
  includes cypher
    ("CREATE (" ++ returnAlias ++ ":" ++ label ++ " $properties)") = true /\
  includes cypher ("RETURN " ++ returnAlias) = true /\
  modes during = [WriteMode] /\
  runs during = [(cypher, [("properties", properties)])].
Proof.
  intros Hs cypher during. split; [|split].
  - apply includes_iff.
    exists (nl ++ "      "),
           (nl ++ "      RETURN " ++ returnAlias ++ nl ++ "    ").
    unfold cypher. regroup.
  - apply includes_iff.
    exists (nl ++ "      CREATE (" ++ returnAlias ++ ":" ++ label ++
            " $properties)" ++ nl ++ "      "),
           (nl ++ "    ").
    unfold cypher. regroup.
  - exact (writeSingle_calls answers cypher [("properties", properties)]
                             st Hs).
Qed.

Lemma findNodes_filtered (World : Type) (driver : Driver T World)
    (label : string) (properties : JsObject) (returnAlias : option string) :
  properties <> empty_object ->
  findNodes driver label (Some properties) returnAlias =
  read driver
       (findNodes_where_cypher label properties (or_default "n" returnAlias))
       (Some properties).
Proof.
  intros Hne. unfold findNodes. cbv zeta.
  destruct properties as [|entry rest]; [contradiction Hne|]; reflexivity.
Qed.

(** X9.  With at least one property, and with any alias, the text that
    [findNodes] has the driver run in a read transaction matches
    [(<alias>:<label>)], returns [<alias>], and contains the condition
    [<alias>.<key> = $<key>] for every key of [properties]; [properties]
    is the parameter object, so that every [$<key>] of the text is bound. *)
Theorem findNodes_names_every_key
    (label : string) (properties : JsObject) (returnAlias : option string)
    (st : Store) :
  on_session answers (world st) = None ->
  properties <> empty_object ->
  let a := match returnAlias with Some x => x | None => "n" end in
  let during :=
    since (world st)
      (world (snd (findNodes (mockDriver answers) label (Some properties)
                             returnAlias st))) in
  exists cypher,
    runs during = [(cypher, properties)] /\
    modes during = [ReadMode] /\
    includes cypher ("MATCH (" ++ a ++ ":" ++ label ++ ")") = true /\
    includes cypher ("RETURN " ++ a) = true /\
    (forall key, In key (keys properties) ->
       includes cypher (a ++ "." ++ key ++ " = $" ++ key) = true).
Proof.
  intros Hs Hne a during.
  exists (findNodes_where_cypher label properties a).
  unfold during. rewrite (findNodes_filtered _ _ _ _ _ Hne).
  change (or_default "n" returnAlias) with a.
  destruct (read_calls answers (findNodes_where_cypher label properties a)
              (Some properties) st Hs) as [Hm Hr].
  split; [exact Hr|]. split; [exact Hm|].
  unfold findNodes_where_cypher.
  remember (whereConditions properties a) as W eqn:HW.
  split; [|split].
  - apply includes_iff.
    exists (nl ++ "      "),
           (nl ++ "      WHERE " ++ W ++ nl ++ "      RETURN " ++ a ++
            nl ++ "    ").
    regroup.
  - apply includes_iff.
    exists (nl ++ "      MATCH (" ++ a ++ ":" ++ label ++ ")" ++
            nl ++ "      WHERE " ++ W ++ nl ++ "      "),
           (nl ++ "    ").
    regroup.
  - intros key Hkey.
    assert (Hin : includes W (a ++ "." ++ key ++ " = $" ++ key) = true).
    { rewrite HW, whereConditions_keys. apply includes_join.
      apply (in_map (fun key => a ++ "." ++ key ++ " = $" ++ key)).
      exact Hkey. }
    replace (nl ++ "      MATCH (" ++ a ++ ":" ++ label ++ ")" ++
             nl ++ "      WHERE " ++ W ++ nl ++ "      RETURN " ++ a ++
             nl ++ "    ")
      with ((nl ++ "      MATCH (" ++ a ++ ":" ++ label ++ ")" ++
             nl ++ "      WHERE ") ++ W ++
            (nl ++ "      RETURN " ++ a ++ nl ++ "    "))
      by regroup.
    now apply includes_within.
Qed.

(** X10.  No property value reaches a query text.  The text that
    [createNode] has the driver run is the same for all [properties], the
    text of [createRelationship] likewise, and the text of [findNodes]
    depends on the keys of [properties] only, not on their values: values
    travel in the parameter object alone. *)
Theorem values_never_reach_the_text
    (label : string) (returnAlias : option string)
    (startNodeMatch endNodeMatch relationshipType : string)
    (names : list string) (st : Store) :
  on_session answers (world st) = None ->
  let asked (call : M Store unit) :=
    texts (since (world st) (world (snd (call st)))) in
  (exists text, forall properties,
     asked (perform (mockDriver answers)
              (CallCreateNode label properties returnAlias)) = [text]) /\
  (exists text, forall properties,
     asked (perform (mockDriver answers)
              (CallCreateRelationship startNodeMatch endNodeMatch
                 relationshipType properties)) = [text]) /\
  (exists text, forall properties,
     keys properties = names ->
     asked (perform (mockDriver answers)
              (CallFindNodes label (Some properties) returnAlias)) = [text]).
Proof.
  intros Hs asked. unfold asked, texts, perform, forget. cbn [snd].
  split; [|split].
  - exists (createNode_cypher label (or_default "n" returnAlias)).
    intros properties. unfold createNode. cbv zeta.
    destruct (writeSingle_calls answers
                (createNode_cypher label (or_default "n" returnAlias))
                [("properties", properties)] st Hs) as [_ Hr].
    cbv zeta in Hr. exact (f_equal (map fst) Hr).
  - exists (createRelationship_cypher startNodeMatch endNodeMatch
                                      relationshipType).
    intros properties. unfold createRelationship. cbv zeta.
    destruct (writeSingle_calls answers
                (createRelationship_cypher startNodeMatch endNodeMatch
                                           relationshipType)
                [("properties", or_default (JObj empty_object) properties)]
                st Hs) as [_ Hr].
    cbv zeta in Hr. exact (f_equal (map fst) Hr).
  - destruct names as [|name names].
    + exists (findNodes_all_cypher label (or_default "n" returnAlias)).
      intros properties Hk.
      destruct properties as [|entry rest]; [|discriminate Hk].
      change (findNodes (mockDriver answers) label (Some []) returnAlias)
        with (read (mockDriver answers)
                (findNodes_all_cypher label (or_default "n" returnAlias))
                None).
      destruct (read_calls answers
                  (findNodes_all_cypher label (or_default "n" returnAlias))
                  None st Hs) as [_ Hr].
      cbv zeta in Hr. exact (f_equal (map fst) Hr).
    + exists (nl ++ "      MATCH (" ++ or_default "n" returnAlias ++ ":" ++
              label ++ ")" ++
              nl ++ "      WHERE " ++
              join " AND "
                (map (fun key => or_default "n" returnAlias ++ "." ++ key ++
                                 " = $" ++ key) (name :: names)) ++
              nl ++ "      RETURN " ++ or_default "n" returnAlias ++
              nl ++ "    ").
      intros properties Hk.
      assert (Hne : properties <> empty_object).
      { intros ->. discriminate Hk. }
      rewrite (findNodes_filtered _ _ _ _ _ Hne).
      destruct (read_calls answers
                  (findNodes_where_cypher label properties
                     (or_default "n" returnAlias))
                  (Some properties) st Hs) as [_ Hr].
      cbv zeta in Hr. refine (eq_trans (f_equal (map fst) Hr) _).
      cbn [map fst]. unfold findNodes_where_cypher.
      now rewrite whereConditions_keys, Hk.
Qed.

End MoreTemplates.

(* ===================================================================== *)
(** ** When the driver runs the work again *)
(* ===================================================================== *)

Section RunAgain.
Context {T : Type}.
Variable answers : Answers T.
Local Abbreviation Store := (Store T Trace).
Local Open Scope list_scope.

(** [batch] on the driver that runs the work again, session granted. *)
Lemma batch_retrying (ops : list Operation) (st : Store) :
  on_session answers (world st) = None ->
  let h := world st in
  let sid := fresh_sid h in
  let m := if needsWrite ops then WriteMode else ReadMode in
  let work :=
    again (batch_work ops (mockTransaction answers sid))
      (mkStore [] (h ++ [EvSession sid; execute_event m sid])) in
  batch (retryingDriver answers) ops st =
  (after_finally
     (map_outcome (fun _ => results (snd work)) (fst work))
     (close_answer answers (world (snd work)) sid),
   mkStore (results (snd work)) (world (snd work) ++ [EvClose sid])).
Proof.
  intros Hs. cbv zeta.
  cbv [batch bind try_finally ret retryingDriver retryingSession
       record_call session executeRead executeWrite close new_results
       get_results].
  cbn [world results]. rewrite Hs. cbn [world results].
  destruct (needsWrite ops); cbn [execute_event world results];
    rewrite <- !app_assoc; cbn [app];
    destruct (again _ _) as [[res|e] st1]; cbn [fst snd map_outcome];
    destruct (close_answer answers _ _) as [[]|]; reflexivity.
Qed.

(** X11.  [batch] does not empty [results] when its callback is called a
    second time.  On a driver that runs the work again after a failure:
    if, the first time, operation [k] is the first to fail, and the second
    time every operation succeeds, then the list that [batch] returns has
    [k] elements more than there are operations: the rows of the [k]
    operations that succeeded the first time, and after them the rows of
    the second time, so that the rows of operation [i] are at index
    [k + i]. *)
Theorem results_pile_up_when_the_work_is_run_again
    (ops : list Operation) (st : Store) (k : nat) (op : Operation)
    (e : JsValue) :
  on_session answers (world st) = None ->
  let h := world st in
  let sid := fresh_sid h in
  let m := if needsWrite ops then WriteMode else ReadMode in
  let h1 := h ++ [EvSession sid; execute_event m sid] in
  let h2 := h1 ++ map (run_event sid) (firstn (S k) ops) in
  nth_error ops k = Some op ->
  (forall i op', i < k -> nth_error ops i = Some op' ->
     exists res, answer_at answers h1 sid ops i op' = Ok res) ->
  answer_at answers h1 sid ops k op = Throw e ->
  (forall i op', nth_error ops i = Some op' ->
     exists res, answer_at answers h2 sid ops i op' = Ok res) ->
  on_close answers (h2 ++ map (run_event sid) ops) sid = None ->
  let call := batch (retryingDriver answers) ops st in
  exists outs,
    fst call = Ok outs /\
    length outs = k + length ops /\
    (forall i op', nth_error ops i = Some op' ->
       exists res, answer_at answers h2 sid ops i op' = Ok res /\
                   nth_error outs (k + i) = Some (project res)) /\
    since h (world (snd call)) =
      [EvSession sid; execute_event m sid] ++
      map (run_event sid) (firstn (S k) ops) ++
      map (run_event sid) ops ++ [EvClose sid].
Proof.
  intros Hs h sid m h1 h2 Hk Hbefore Hfail Hsecond Hclose call.
  destruct (loop_fail answers sid e k ops (mkStore [] h1) op Hk Hbefore Hfail)
    as (outs1 & Hloop1 & Hlen1).
  cbn [world results app] in Hloop1. fold h2 in Hloop1.
  destruct (loop_ok answers sid ops (mkStore outs1 h2) Hsecond)
    as (outs2 & Hloop2 & Hlen2 & Hnth2).
  cbn [world results] in Hloop2.
  assert (Hwork :
    again (batch_work ops (mockTransaction answers sid)) (mkStore [] h1) =
    (Ok {| records := [] |},
     mkStore (outs1 ++ outs2) (h2 ++ map (run_event sid) ops))).
  { unfold again, batch_work, bind, ret. rewrite Hloop1, Hloop2.
    reflexivity. }
  exists (outs1 ++ outs2).
  unfold call. rewrite (batch_retrying _ _ Hs). cbv zeta.
  fold h sid m h1. rewrite Hwork. cbn [fst snd world results map_outcome].
  unfold close_answer. rewrite Hclose. cbn [after_finally].
  split; [reflexivity|]. split; [|split].
  - rewrite length_app. lia.
  - intros i op' Hi. destruct (Hnth2 i op' Hi) as (res & Hres & Hout).
    exists res. split; [exact Hres|].
    rewrite nth_error_app2 by lia.
    replace (k + i - length outs1) with i by lia. exact Hout.
  - unfold h2, h1. rewrite <- !app_assoc. now rewrite since_app.
Qed.

End RunAgain.

(* ===================================================================== *)
(** ** [toNumber] *)
(* ===================================================================== *)

Section ToNumber.
Context {Number Integer : Type}.
Variable Integer_toNumber : Integer -> Number.

(** X12.  [toNumber] gives null for null and for undefined and for nothing
    else: every number, zero included, comes back as it is, and an integer
    of the driver as what its own [toNumber()] gives.  Applied to its own
    result it changes nothing. *)
Theorem toNumber_null_and_idempotent (value : NumberArg Number Integer) :
  (toNumber Integer_toNumber value = None <->
   value = ArgNull \/ value = ArgUndefined) /\
  (forall n, value = ArgNumber n ->
             toNumber Integer_toNumber value = Some n) /\
  (forall i, value = ArgInteger i ->
             toNumber Integer_toNumber value = Some (Integer_toNumber i)) /\
  toNumber Integer_toNumber (as_argument (toNumber Integer_toNumber value)) =
    toNumber Integer_toNumber value.
Proof.
  split; [|split; [|split]].
  - destruct value; cbn; split; intros H;
      try discriminate; try (destruct H; discriminate); auto.
  - intros n ->. reflexivity.
  - intros i ->. reflexivity.
  - destruct value; reflexivity.
Qed.

End ToNumber.

(* ===================================================================== *)
(** ** More concrete runs *)
(* ===================================================================== *)

Lemma read_returns_every_row_witness :
  on_session MoreExamples.steady_three (world Examples.st0) = None /\
  exists rows,
    fst (read (mockDriver MoreExamples.steady_three) "MATCH (n) RETURN n"
              None Examples.st0) = Ok rows /\
    length rows = 3.
Proof.
  split; [reflexivity|].
  destruct (proj1 (read_returns_every_row MoreExamples.steady_three
                     "MATCH (n) RETURN n" None Examples.st0
                     MoreExamples.three_rows eq_refl) eq_refl eq_refl)
    as (rows & Hrows & Hlen & _).
  exists rows. split; [exact Hrows | exact Hlen].
Defined.

Lemma batch_returns_only_complete_lists_witness :
  fst (batch (mockDriver Examples.steady) Examples.two_matches Examples.st0) =
    Ok [[Examples.row]; [Examples.row]] /\
  length (runs (world (snd (batch (mockDriver Examples.steady)
                                  Examples.two_matches Examples.st0)))) = 2.
Proof.
  split; [reflexivity|].
  pose proof (batch_returns_only_complete_lists Examples.steady
                Examples.two_matches Examples.st0
                [[Examples.row]; [Examples.row]] eq_refl) as [_ H].
  exact (eq_trans (f_equal (@length _) H) eq_refl).
Defined.

Lemma createNode_with_alias_witness :
  on_session Examples.steady (world Examples.st0) = None /\
  includes (createNode_cypher "Person" "p") "CREATE (p:Person $properties)"
    = true /\
  includes (createNode_cypher "Person" "p") "RETURN p" = true.
Proof.
  split; [reflexivity|].
  pose proof (createNode_with_alias Examples.steady "Person" "p"
                (JObj [("name", JStr "John")]) Examples.st0 eq_refl) as H.
  exact (conj (proj1 H) (proj1 (proj2 H))).
Defined.

Lemma findNodes_names_every_key_witness :
  on_session Examples.steady (world Examples.st0) = None /\
  [("name", JStr "John"); ("age", JNum 30)] <> empty_object /\
  exists cypher,
    runs (world (snd (findNodes (mockDriver Examples.steady) "Person"
                        (Some [("name", JStr "John"); ("age", JNum 30)])
                        (Some "p") Examples.st0))) =
      [(cypher, [("name", JStr "John"); ("age", JNum 30)])] /\
    includes cypher "p.name = $name" = true /\
    includes cypher "p.age = $age" = true.
Proof.
  assert (Hne : [("name", JStr "John"); ("age", JNum 30)] <> empty_object)
    by discriminate.
  split; [reflexivity|]. split; [exact Hne|].
  destruct (findNodes_names_every_key Examples.steady "Person"
              [("name", JStr "John"); ("age", JNum 30)] (Some "p")
              Examples.st0 eq_refl Hne)
    as (cypher & Hruns & _ & _ & _ & Hkeys).
  exists cypher. split; [exact Hruns|]. split.
  - apply (Hkeys "name"). left. reflexivity.
  - apply (Hkeys "age"). right. left. reflexivity.
Defined.

Lemma values_never_reach_the_text_witness :
  on_session Examples.steady (world Examples.st0) = None /\
  texts (world (snd (perform (mockDriver Examples.steady)
                       (CallFindNodes "Person" (Some [("name", JStr "John")])
                                      None) Examples.st0))) =
  texts (world (snd (perform (mockDriver Examples.steady)
                       (CallFindNodes "Person" (Some [("name", JStr "Jane")])
                                      None) Examples.st0))).
Proof.
  split; [reflexivity|].
  destruct (proj2 (proj2 (values_never_reach_the_text Examples.steady
                            "Person" None "(a)" "(b)" "KNOWS" ["name"]
                            Examples.st0 eq_refl)))
    as [text Htext].
  exact (eq_trans (Htext [("name", JStr "John")] eq_refl)
                  (eq_sym (Htext [("name", JStr "Jane")] eq_refl))).
Defined.

Lemma results_pile_up_when_the_work_is_run_again_witness :
  on_session MoreExamples.second_run_rejects_once (world Examples.st0)
    = None /\
  exists outs,
    fst (batch (retryingDriver MoreExamples.second_run_rejects_once)
               Examples.two_matches Examples.st0) = Ok outs /\
    length outs = 3 /\
    length Examples.two_matches = 2.
Proof.
  split; [reflexivity|].
  destruct (results_pile_up_when_the_work_is_run_again
              MoreExamples.second_run_rejects_once Examples.two_matches
              Examples.st0 1
              {| query := "MATCH (n:Label2) RETURN n";
                 params := Some [("param", JStr "value")];
                 isWrite := None |}
              Examples.engine_error eq_refl eq_refl)
    as (outs & Hout & Hlen & _).
  - intros i op' Hi _. destruct i as [|i]; [|lia].
    exists Examples.mockResult. reflexivity.
  - reflexivity.
  - intros i op' Hi. destruct i as [|[|i]].
    + exists Examples.mockResult. reflexivity.
    + exists Examples.mockResult. reflexivity.
    + destruct i; discriminate Hi.
  - reflexivity.
  - exists outs. split; [exact Hout|]. split; [exact Hlen | reflexivity].
Defined.


(** C4, as stated, fails where the first row is null: the list that [read]
    returns is not empty, and [readSingle] returns null. *)
Lemma readSingle_null_on_a_null_row :
  ~ (forall rows,
       fst (read (mockDriver MoreExamples.null_row) "MATCH (n) RETURN n.age"
                 None Examples.st0) = Ok rows ->
       (fst (readSingle (mockDriver MoreExamples.null_row)
                        "MATCH (n) RETURN n.age" None Examples.st0) = Ok null
        <-> rows = [])).
Proof.
  intros H. destruct (H [JNull] eq_refl) as [Hnull _].
  discriminate (Hnull eq_refl).
Qed.
